(** * klimat: the Philips AirCombi payload codec and session counter

    A shallow embedding of [philips/message.go] and [philips/device.go]
    (package [philips] of hemtjan.st/klimat) together with the properties
    of the wire format that the protocol description states.

    Go values are modelled as follows.
    - [[]byte] and [string] are [list byte] (Go strings are byte strings).
    - [uint32] ([SessionID]) is an [N] below [2^32]; conversions and
      additions write the wrap-around out.
    - [int] ([AirQuality]) is a [Z].
    - A Go function returning [(T, error)] returns a [result T]; a run-time
      panic of the standard library is the third constructor [Panic].
    - The Go standard library is not part of the repository.  The text
      helpers ([encoding/hex], [strconv.ParseUint], [fmt.Sprintf "%08X"],
      [strings.ToUpper]) and the CBC mode of [crypto/cipher] are written out
      after their documented behaviour; the digests and the block cipher
      are parameters of the codec, and an implementation of MD5, SHA-256
      and AES after RFC 1321, FIPS 180-4 and FIPS 197 instantiates them. *)

From Stdlib Require Import List NArith ZArith Lia Bool String Btauto.
From Stdlib Require Import Init.Byte Strings.Byte.
Import ListNotations.

Local Open Scope N_scope.

(* ================================================================= *)
(** ** Bytes and results *)

Definition bytes := list byte.

(** A Go string literal as its bytes. *)
Definition B (s : string) : bytes := list_byte_of_string s.

Definition u8 (b : byte) : N := Byte.to_N b.

(** [byte(n)]: conversion to [uint8] keeps the low eight bits. *)
Definition byte_of (n : N) : byte :=
  match Byte.of_N (n mod 256) with
  | Some b => b
  | None => x00
  end.

(** [hex.InvalidByteError] and [hex.ErrLength]. *)
Inductive hex_error :=
| InvalidByteError (b : byte)
| ErrLength.

(** Go errors.  [Errorf msg] is an error made of a fixed text and
    [Wrap msg e] is [fmt.Errorf("msg: %w", e)]; the others are the errors
    of the libraries the package calls. *)
Inductive error :=
| Errorf (msg : string)
| Wrap (msg : string) (e : error)
| HexError (e : hex_error)
| KeySizeError (n : nat)
| TransportError
| JSONError.

Inductive result (A : Type) :=
| Ok (a : A)
| Err (e : error)
| Panic (msg : string).
Arguments Ok {A} a.
Arguments Err {A} e.
Arguments Panic {A} msg.

Definition bind {A C} (r : result A) (k : A -> result C) : result C :=
  match r with
  | Ok a => k a
  | Err e => Err e
  | Panic m => Panic m
  end.

(** [wrapped msg r]: [if err != nil { return nil, fmt.Errorf("msg: %w", err) }]
    around the call that gave [r]. *)
Definition wrapped {A} (msg : string) (r : result A) : result A :=
  match r with
  | Ok a => Ok a
  | Err e => Err (Wrap msg e)
  | Panic m => Panic m
  end.

Declare Scope result_scope.
Delimit Scope result_scope with result.
Notation "x <- r ;; k" := (bind r (fun x => k))
  (at level 61, r at next level, right associativity) : result_scope.

(* ================================================================= *)
(** ** encoding/hex and strings.ToUpper *)

Module hex.

(** [const hextable = "0123456789abcdef"]. *)
Definition hextable : bytes := B "0123456789abcdef".

Definition digit (n : N) : byte := nth (N.to_nat n) hextable x00.

(** [Encode]: each byte [v] gives [hextable[v>>4]], [hextable[v&0x0f]]. *)
Fixpoint EncodeToString (src : bytes) : bytes :=
  match src with
  | [] => []
  | v :: rest =>
      digit (N.shiftr (u8 v) 4) :: digit (N.land (u8 v) 15) :: EncodeToString rest
  end.

(** [reverseHexTable]: the value of a hexadecimal digit of either case,
    [None] where the table holds [0xff]. *)
Definition fromHexChar (c : byte) : option N :=
  let n := u8 c in
  if (48 <=? n) && (n <=? 57) then Some (n - 48)
  else if (97 <=? n) && (n <=? 102) then Some (n - 97 + 10)
  else if (65 <=? n) && (n <=? 70) then Some (n - 65 + 10)
  else None.

(** [Decode]: pairs are decoded from the left, the first invalid character
    met is reported; a trailing single character is checked before the odd
    length is reported.  The bytes decoded before an error are dropped:
    [DecodeMessage] does not use them. *)
Fixpoint DecodeString (s : bytes) : result bytes :=
  match s with
  | [] => Ok []
  | [p] =>
      match fromHexChar p with
      | None => Err (HexError (InvalidByteError p))
      | Some _ => Err (HexError ErrLength)
      end
  | p :: q :: rest =>
      match fromHexChar p, fromHexChar q with
      | None, _ => Err (HexError (InvalidByteError p))
      | Some _, None => Err (HexError (InvalidByteError q))
      | Some a, Some b =>
          match DecodeString rest with
          | Ok out => Ok (byte_of (N.lor (N.shiftl a 4) b) :: out)
          | other => other
          end
      end
  end.

End hex.

Module strings.

(** [strings.ToUpper] on ASCII text: ['a'..'z'] lose [0x20], every other
    byte is kept.  The package applies it to the output of
    [hex.EncodeToString] only, which is ASCII. *)
Definition upper (c : byte) : byte :=
  let n := u8 c in
  if (97 <=? n) && (n <=? 122) then byte_of (n - 32) else c.

Definition ToUpper (s : bytes) : bytes := map upper s.

(** [strings.ToLower]: on a text of ASCII bytes, ['A'..'Z'] gain [0x20]
    and every other byte is kept; any other text goes through the tables
    of [unicode], which [unicode_map] stands for. *)
Definition lower (c : byte) : byte :=
  let n := u8 c in
  if (65 <=? n) && (n <=? 90) then byte_of (n + 32) else c.

Definition isASCII (s : bytes) : bool := forallb (fun c => u8 c <? 128) s.

Definition ToLower (unicode_map : bytes -> bytes) (s : bytes) : bytes :=
  if isASCII s then map lower s else unicode_map s.

End strings.

(* ================================================================= *)
(** ** strconv.ParseUint(s, 16, 32) and fmt.Sprintf("%08X", id) *)

Module strconv.

Inductive num_error := ErrSyntax | ErrRange.

(** [lower(c) = c | ('x' - 'X')]. *)
Definition lower (c : byte) : N := N.lor (u8 c) 32.

(** The digit value of one character in [ParseUint], before the comparison
    with the base. *)
Definition digit_val (c : byte) : option N :=
  let n := u8 c in
  if (48 <=? n) && (n <=? 57) then Some (n - 48)
  else if (97 <=? lower c) && (lower c <=? 122) then Some (lower c - 97 + 10)
  else None.

Definition cutoff16 : N := 2 ^ 64 / 16.
Definition maxVal32 : N := 2 ^ 32 - 1.

(** The loop of [ParseUint] for base 16 and bit size 32 over the characters
    left, [n] being the [uint64] accumulated so far. *)
Fixpoint parse_loop (s : bytes) (n : N) : N * option num_error :=
  match s with
  | [] => (n, None)
  | c :: rest =>
      match digit_val c with
      | None => (0, Some ErrSyntax)
      | Some d =>
          if 16 <=? d then (0, Some ErrSyntax)
          else if cutoff16 <=? n then (maxVal32, Some ErrRange)
          else
            let n16 := (n * 16) mod 2 ^ 64 in
            let n1 := (n16 + d) mod 2 ^ 64 in
            if (n1 <? n16) || (maxVal32 <? n1) then (maxVal32, Some ErrRange)
            else parse_loop rest n1
      end
  end.

Definition ParseUint16_32 (s : bytes) : N * option num_error :=
  match s with
  | [] => (0, Some ErrSyntax)
  | _ => parse_loop s 0
  end.

Definition ddigits : bytes := B "0123456789".

Definition ddigit (n : N) : byte := nth (N.to_nat n) ddigits x00.

(** The digit loop of [formatBits] for base 10, one digit at a time from
    the least significant one; a [uint64] has at most twenty digits, which
    bounds the loop. *)
Fixpoint decimal_loop (fuel : nat) (u : N) (acc : bytes) : bytes :=
  match fuel with
  | O => acc
  | S fuel' =>
      if u <? 10 then ddigit u :: acc
      else decimal_loop fuel' (u / 10) (ddigit (u mod 10) :: acc)
  end.

(** [strconv.Itoa(i)] for an [int] of 64 bits: the decimal digits of the
    magnitude, after a minus sign for a negative number. *)
Definition Itoa (i : Z) : bytes :=
  if (i <? 0)%Z then x2d :: decimal_loop 20 (Z.to_N (- i) mod 2 ^ 64) []
  else decimal_loop 20 (Z.to_N i mod 2 ^ 64) [].

End strconv.

Module fmt.

Definition udigits : bytes := B "0123456789ABCDEF".

Definition udigit (n : N) : byte := nth (N.to_nat n) udigits x00.

(** The digit loop of [fmtInteger] for base 16: digits are produced from
    the least significant one while [u >= 16], then the last one.  A
    [uint64] has at most sixteen of them, which bounds the loop. *)
Fixpoint digits_loop (fuel : nat) (u : N) (acc : bytes) : bytes :=
  match fuel with
  | O => acc
  | S fuel' =>
      if u <? 16 then udigit u :: acc
      else digits_loop fuel' (N.shiftr u 4) (udigit (N.land u 15) :: acc)
  end.

(** [Sprintf("%08X", u)]: upper-case hexadecimal, padded with zeros on the
    left to a width of at least eight. *)
Definition Sprintf_08X (u : N) : bytes :=
  let ds := digits_loop 16 u [] in
  repeat x30 (8 - List.length ds) ++ ds.

End fmt.

(* ================================================================= *)
(** ** crypto/md5, crypto/sha256, crypto/aes

    Implementations after RFC 1321, FIPS 180-4 and FIPS 197.  The codec
    below is stated over any digests and block cipher; these instantiate
    it. *)

Module word.

Definition add (a b : N) : N := (a + b) mod 2 ^ 32.
Definition not32 (x : N) : N := N.lxor x (2 ^ 32 - 1).
Definition rotl (x k : N) : N :=
  N.lor (N.shiftl x k mod 2 ^ 32) (N.shiftr x (32 - k)).
Definition rotr (x k : N) : N := rotl x (32 - k).

(** Little- and big-endian serialisation of [n] bytes of [x]. *)
Fixpoint le_bytes (n : nat) (x : N) : bytes :=
  match n with
  | O => []
  | S n' => byte_of x :: le_bytes n' (N.shiftr x 8)
  end.
Definition be_bytes (n : nat) (x : N) : bytes := rev (le_bytes n x).

Definition of_le (b : bytes) : N :=
  fold_right (fun c acc => u8 c + 256 * acc) 0 b.
Definition of_be (b : bytes) : N := of_le (rev b).

(** [chunks n k l]: the first [k] consecutive pieces of [n] items of [l]. *)
Fixpoint chunks {A} (n k : nat) (l : list A) : list (list A) :=
  match k with
  | O => []
  | S k' => firstn n l :: chunks n k' (skipn n l)
  end.

Definition blocks (n : nat) (l : bytes) : list bytes :=
  chunks n (Nat.div (List.length l) n) l.

(** Merkle-Damgard padding: [0x80], zeros up to 56 modulo 64, then the
    bit length on eight bytes as [len64] writes it. *)
Definition md_pad (len64 : N -> bytes) (msg : bytes) : bytes :=
  let len := List.length msg in
  let zeros := Nat.modulo (119 - Nat.modulo len 64) 64 in
  msg ++ [x80] ++ repeat x00 zeros ++ len64 ((8 * N.of_nat len) mod 2 ^ 64).

End word.

Module md5.
Import word.

Definition K : list N :=
  [3614090360; 3905402710; 606105819; 3250441966; 4118548399; 1200080426; 2821735955; 4249261313;
   1770035416; 2336552879; 4294925233; 2304563134; 1804603682; 4254626195; 2792965006; 1236535329;
   4129170786; 3225465664; 643717713; 3921069994; 3593408605; 38016083; 3634488961; 3889429448;
   568446438; 3275163606; 4107603335; 1163531501; 2850285829; 4243563512; 1735328473; 2368359562;
   4294588738; 2272392833; 1839030562; 4259657740; 2763975236; 1272893353; 4139469664; 3200236656;
   681279174; 3936430074; 3572445317; 76029189; 3654602809; 3873151461; 530742520; 3299628645;
   4096336452; 1126891415; 2878612391; 4237533241; 1700485571; 2399980690; 4293915773; 2240044497;
   1873313359; 4264355552; 2734768916; 1309151649; 4149444226; 3174756917; 718787259; 3951481745].

Definition shifts : list N :=
  [7; 12; 17; 22; 7; 12; 17; 22; 7; 12; 17; 22; 7; 12; 17; 22;
   5; 9; 14; 20; 5; 9; 14; 20; 5; 9; 14; 20; 5; 9; 14; 20;
   4; 11; 16; 23; 4; 11; 16; 23; 4; 11; 16; 23; 4; 11; 16; 23;
   6; 10; 15; 21; 6; 10; 15; 21; 6; 10; 15; 21; 6; 10; 15; 21].

Definition state := (N * N * N * N)%type.

Definition init : state := (1732584193, 4023233417, 2562383102, 271733878).

Definition step (M : list N) (st : state) (i : nat) : state :=
  let '(a, b, c, d) := st in
  let '(f, g) :=
    if (i <? 16)%nat then (N.lor (N.land b c) (N.land (not32 b) d), i)
    else if (i <? 32)%nat then
      (N.lor (N.land d b) (N.land (not32 d) c), Nat.modulo (5 * i + 1) 16)
    else if (i <? 48)%nat then (N.lxor (N.lxor b c) d, Nat.modulo (3 * i + 5) 16)
    else (N.lxor c (N.lor b (not32 d)), Nat.modulo (7 * i) 16) in
  let f' := add (add (add f a) (nth i K 0)) (nth g M 0) in
  (d, add b (rotl f' (nth i shifts 0)), b, c).

Definition compress (st : state) (block : bytes) : state :=
  let M := map of_le (chunks 4 16 block) in
  let '(a, b, c, d) := st in
  let '(a', b', c', d') := fold_left (step M) (seq 0 64) st in
  (add a a', add b b', add c c', add d d').

(** [md5.Sum]: the digest as its sixteen bytes. *)
Definition Sum (msg : bytes) : bytes :=
  let '(a, b, c, d) :=
    fold_left compress (blocks 64 (md_pad (le_bytes 8) msg)) init in
  le_bytes 4 a ++ le_bytes 4 b ++ le_bytes 4 c ++ le_bytes 4 d.

End md5.

Module sha256.
Import word.

Definition K : list N :=
  [1116352408; 1899447441; 3049323471; 3921009573; 961987163; 1508970993; 2453635748; 2870763221;
   3624381080; 310598401; 607225278; 1426881987; 1925078388; 2162078206; 2614888103; 3248222580;
   3835390401; 4022224774; 264347078; 604807628; 770255983; 1249150122; 1555081692; 1996064986;
   2554220882; 2821834349; 2952996808; 3210313671; 3336571891; 3584528711; 113926993; 338241895;
   666307205; 773529912; 1294757372; 1396182291; 1695183700; 1986661051; 2177026350; 2456956037;
   2730485921; 2820302411; 3259730800; 3345764771; 3516065817; 3600352804; 4094571909; 275423344;
   430227734; 506948616; 659060556; 883997877; 958139571; 1322822218; 1537002063; 1747873779;
   1955562222; 2024104815; 2227730452; 2361852424; 2428436474; 2756734187; 3204031479; 3329325298].

Definition init : list N :=
  [1779033703; 3144134277; 1013904242; 2773480762;
   1359893119; 2600822924; 528734635; 1541459225].

Definition ssig0 (x : N) : N :=
  N.lxor (N.lxor (rotr x 7) (rotr x 18)) (N.shiftr x 3).
Definition ssig1 (x : N) : N :=
  N.lxor (N.lxor (rotr x 17) (rotr x 19)) (N.shiftr x 10).
Definition bsig0 (x : N) : N :=
  N.lxor (N.lxor (rotr x 2) (rotr x 13)) (rotr x 22).
Definition bsig1 (x : N) : N :=
  N.lxor (N.lxor (rotr x 6) (rotr x 11)) (rotr x 25).
Definition ch (x y z : N) : N := N.lxor (N.land x y) (N.land (not32 x) z).
Definition maj (x y z : N) : N :=
  N.lxor (N.lxor (N.land x y) (N.land x z)) (N.land y z).

(** The message schedule, extended one word at a time. *)
Definition extend (W : list N) (i : nat) : list N :=
  W ++ [add (add (add (ssig1 (nth (i - 2) W 0)) (nth (i - 7) W 0))
                 (ssig0 (nth (i - 15) W 0)))
            (nth (i - 16) W 0)].

Definition schedule (block : bytes) : list N :=
  fold_left extend (seq 16 48) (map of_be (chunks 4 16 block)).

Definition round (W : list N) (st : list N) (i : nat) : list N :=
  match st with
  | [a; b; c; d; e; f; g; h] =>
      let t1 := add (add (add (add h (bsig1 e)) (ch e f g)) (nth i K 0)) (nth i W 0) in
      let t2 := add (bsig0 a) (maj a b c) in
      [add t1 t2; a; b; c; add d t1; e; f; g]
  | _ => st
  end.

Definition compress (st : list N) (block : bytes) : list N :=
  let W := schedule block in
  map (fun p => add (fst p) (snd p))
      (combine st (fold_left (round W) (seq 0 64) st)).

(** [sha256.Sum256]: the digest as its thirty-two bytes. *)
Definition Sum256 (msg : bytes) : bytes :=
  List.concat (map (be_bytes 4)
              (fold_left compress (blocks 64 (md_pad (be_bytes 8) msg)) init)).

End sha256.

Module subtle.

Definition bxor (a b : byte) : byte := byte_of (N.lxor (u8 a) (u8 b)).

(** [subtle.XORBytes]: the bytes of [x] and [y] are combined up to the
    length of the shorter. *)
Definition XORBytes (x y : bytes) : bytes :=
  map (fun p => bxor (fst p) (snd p)) (combine x y).

End subtle.

Module aes.
Import subtle.

Definition all_bytes : bytes := map (fun n => byte_of (N.of_nat n)) (seq 0 256).

(** Multiplication by [x] in GF(2^8) modulo [x^8 + x^4 + x^3 + x + 1]. *)
Definition xtime (a : byte) : byte :=
  byte_of (N.lxor (N.shiftl (u8 a) 1) (if 128 <=? u8 a then 27 else 0)).

Fixpoint gmul_loop (n : nat) (a : byte) (b : N) (acc : byte) : byte :=
  match n with
  | O => acc
  | S n' =>
      gmul_loop n' (xtime a) (N.shiftr b 1) (if N.odd b then bxor acc a else acc)
  end.

(** The product of the field: [gmul c a] is [{c} . {a}]. *)
Definition gmul (c a : byte) : byte := gmul_loop 8 a (u8 c) x00.

(** The multiplicative inverse, found by search; zero maps to zero. *)
Definition ginv (a : byte) : byte :=
  match find (fun b => Byte.eqb (gmul a b) x01) all_bytes with
  | Some b => b
  | None => x00
  end.

Definition rotl8 (b : byte) (k : N) : byte :=
  byte_of (N.lor (N.shiftl (u8 b) k) (N.shiftr (u8 b) (8 - k))).

(** The affine transformation of the S-box. *)
Definition affine (b : byte) : byte :=
  bxor (bxor (bxor (bxor (bxor b (rotl8 b 1)) (rotl8 b 2)) (rotl8 b 3)) (rotl8 b 4)) x63.

Definition sbox : bytes :=
  Eval vm_compute in map (fun a => affine (ginv a)) all_bytes.

Definition inv_sbox : bytes :=
  Eval vm_compute in
    map (fun y =>
           match find (fun x => Byte.eqb (nth (N.to_nat (u8 x)) sbox x00) y) all_bytes with
           | Some x => x
           | None => x00
           end) all_bytes.

Definition SubByte (b : byte) : byte := nth (N.to_nat (u8 b)) sbox x00.
Definition InvSubByte (b : byte) : byte := nth (N.to_nat (u8 b)) inv_sbox x00.

Definition SubBytes (st : bytes) : bytes := map SubByte st.
Definition InvSubBytes (st : bytes) : bytes := map InvSubByte st.

(** The state is the block in input order: byte [4c + r] is row [r] of
    column [c].  Row [r] is rotated by [r] columns. *)
Definition ShiftRows (st : bytes) : bytes :=
  match st with
  | [s0; s1; s2; s3; s4; s5; s6; s7; s8; s9; s10; s11; s12; s13; s14; s15] =>
      [s0; s5; s10; s15; s4; s9; s14; s3; s8; s13; s2; s7; s12; s1; s6; s11]
  | _ => st
  end.

Definition InvShiftRows (st : bytes) : bytes :=
  match st with
  | [s0; s1; s2; s3; s4; s5; s6; s7; s8; s9; s10; s11; s12; s13; s14; s15] =>
      [s0; s13; s10; s7; s4; s1; s14; s11; s8; s5; s2; s15; s12; s9; s6; s3]
  | _ => st
  end.

Definition xor4 (a b c d : byte) : byte := bxor (bxor (bxor a b) c) d.

Definition mix (a0 a1 a2 a3 : byte) : bytes :=
  [xor4 (gmul x02 a0) (gmul x03 a1) a2 a3;
   xor4 a0 (gmul x02 a1) (gmul x03 a2) a3;
   xor4 a0 a1 (gmul x02 a2) (gmul x03 a3);
   xor4 (gmul x03 a0) a1 a2 (gmul x02 a3)].

Definition inv_mix (b0 b1 b2 b3 : byte) : bytes :=
  [xor4 (gmul x0e b0) (gmul x0b b1) (gmul x0d b2) (gmul x09 b3);
   xor4 (gmul x09 b0) (gmul x0e b1) (gmul x0b b2) (gmul x0d b3);
   xor4 (gmul x0d b0) (gmul x09 b1) (gmul x0e b2) (gmul x0b b3);
   xor4 (gmul x0b b0) (gmul x0d b1) (gmul x09 b2) (gmul x0e b3)].

Fixpoint columns (f : byte -> byte -> byte -> byte -> bytes) (st : bytes) : bytes :=
  match st with
  | a0 :: a1 :: a2 :: a3 :: rest => f a0 a1 a2 a3 ++ columns f rest
  | _ => st
  end.

Definition MixColumns (st : bytes) : bytes := columns mix st.
Definition InvMixColumns (st : bytes) : bytes := columns inv_mix st.

Definition AddRoundKey (rk st : bytes) : bytes := XORBytes st rk.

(** *** Key expansion *)

Definition RotWord (w : bytes) : bytes :=
  match w with
  | [a; b; c; d] => [b; c; d; a]
  | _ => w
  end.

Definition SubWord (w : bytes) : bytes := map SubByte w.

(** [expand n Nk i rc w]: [n] more words are appended to the [i] words
    [w]; [rc] is the round constant to use next. *)
Fixpoint expand (n Nk i : nat) (rc : byte) (w : list bytes) : list bytes :=
  match n with
  | O => w
  | S n' =>
      let temp := nth (i - 1) w [] in
      let prev := nth (i - Nk) w [] in
      if (Nat.modulo i Nk =? 0)%nat then
        expand n' Nk (S i) (xtime rc)
          (w ++ [XORBytes prev (XORBytes (SubWord (RotWord temp)) [rc; x00; x00; x00])])
      else if ((6 <? Nk) && (Nat.modulo i Nk =? 4))%nat then
        expand n' Nk (S i) rc (w ++ [XORBytes prev (SubWord temp)])
      else
        expand n' Nk (S i) rc (w ++ [XORBytes prev temp])
  end.

(** The round keys of a key of [4 * Nk] bytes: [Nk + 7] keys of 16 bytes. *)
Definition KeyExpansion (key : bytes) : list bytes :=
  let Nk := Nat.div (List.length key) 4 in
  let w := expand (4 * (Nk + 7) - Nk) Nk Nk x01 (word.chunks 4 Nk key) in
  map (@List.concat byte) (word.chunks 4 (Nk + 7) w).

(** *** The cipher and the inverse cipher *)

Definition round (rk st : bytes) : bytes :=
  AddRoundKey rk (MixColumns (ShiftRows (SubBytes st))).
Definition final_round (rk st : bytes) : bytes :=
  AddRoundKey rk (ShiftRows (SubBytes st)).

Definition inv_round (rk st : bytes) : bytes :=
  InvSubBytes (InvShiftRows (InvMixColumns (AddRoundKey rk st))).
Definition inv_final_round (rk st : bytes) : bytes :=
  InvSubBytes (InvShiftRows (AddRoundKey rk st)).

Fixpoint rounds (rks : list bytes) (st : bytes) : bytes :=
  match rks with
  | [] => st
  | [rk] => final_round rk st
  | rk :: rest => rounds rest (round rk st)
  end.

Fixpoint inv_rounds (rks : list bytes) (st : bytes) : bytes :=
  match rks with
  | [] => st
  | [rk] => inv_final_round rk st
  | rk :: rest => inv_round rk (inv_rounds rest st)
  end.

Definition Cipher (rks : list bytes) (block : bytes) : bytes :=
  match rks with
  | [] => block
  | rk0 :: rest => rounds rest (AddRoundKey rk0 block)
  end.

Definition InvCipher (rks : list bytes) (block : bytes) : bytes :=
  match rks with
  | [] => block
  | rk0 :: rest => AddRoundKey rk0 (inv_rounds rest block)
  end.

(** [Block.Encrypt] and [Block.Decrypt] of the cipher that
    [aes.NewCipher(key)] returns. *)
Definition Encrypt (key block : bytes) : bytes := Cipher (KeyExpansion key) block.
Definition Decrypt (key block : bytes) : bytes := InvCipher (KeyExpansion key) block.

End aes.

(* ================================================================= *)
(** ** crypto/cipher: CBC mode over a block cipher of 16-byte blocks *)

Module cipher.
Import subtle.

Section CBC.

(** [Block.Encrypt] and [Block.Decrypt] of the [cipher.Block] at hand. *)
Variable block_Encrypt block_Decrypt : bytes -> bytes.

Definition BlockSize : nat := 16.

(** The loop of [cbcEncrypter.CryptBlocks] over [n] blocks: each block is
    combined with the previous cipher block (first the IV), then
    encrypted. *)
Fixpoint encrypt_loop (n : nat) (iv src : bytes) : bytes :=
  match n with
  | O => []
  | S n' =>
      let c := block_Encrypt (XORBytes (firstn BlockSize src) iv) in
      c ++ encrypt_loop n' c (skipn BlockSize src)
  end.

(** The loop of [cbcDecrypter.CryptBlocks]: each block is decrypted, then
    combined with the previous cipher block (first the IV). *)
Fixpoint decrypt_loop (n : nat) (iv src : bytes) : bytes :=
  match n with
  | O => []
  | S n' =>
      let c := firstn BlockSize src in
      XORBytes (block_Decrypt c) iv ++ decrypt_loop n' c (skipn BlockSize src)
  end.

(** [d := make([]byte, len(src)); NewCBCEncrypter(block, iv).CryptBlocks(d, src)]
    with the two panics of the library. *)
Definition CBCEncrypt (iv src : bytes) : result bytes :=
  if negb (List.length iv =? BlockSize)%nat then
    Panic "cipher.NewCBCEncrypter: IV length must equal block size"
  else if negb (Nat.modulo (List.length src) BlockSize =? 0)%nat then
    Panic "crypto/cipher: input not full blocks"
  else Ok (encrypt_loop (Nat.div (List.length src) BlockSize) iv src).

Definition CBCDecrypt (iv src : bytes) : result bytes :=
  if negb (List.length iv =? BlockSize)%nat then
    Panic "cipher.NewCBCDecrypter: IV length must equal block size"
  else if negb (Nat.modulo (List.length src) BlockSize =? 0)%nat then
    Panic "crypto/cipher: input not full blocks"
  else Ok (decrypt_loop (Nat.div (List.length src) BlockSize) iv src).

End CBC.

End cipher.

(** The digests and the block cipher the package calls.  [aes_Encrypt key]
    and [aes_Decrypt key] are [Block.Encrypt] and [Block.Decrypt] of the
    block that [aes.NewCipher(key)] returns. *)
Class Crypto := {
  md5_Sum : bytes -> bytes;
  sha256_Sum256 : bytes -> bytes;
  aes_Encrypt : bytes -> bytes -> bytes;
  aes_Decrypt : bytes -> bytes -> bytes
}.

(** What the codec relies on: the sizes of the digests ([[16]byte] and
    [[32]byte] in Go) and of a cipher block, and decryption undoing
    encryption under a 16-byte key. *)
Class CryptoLaws (crypto : Crypto) : Prop := {
  md5_Sum_length : forall m, List.length (md5_Sum m) = 16%nat;
  sha256_Sum256_length : forall m, List.length (sha256_Sum256 m) = 32%nat;
  aes_Encrypt_length : forall key b,
      List.length key = 16%nat -> List.length b = 16%nat ->
      List.length (aes_Encrypt key b) = 16%nat;
  aes_Decrypt_Encrypt : forall key b,
      List.length key = 16%nat -> List.length b = 16%nat ->
      aes_Decrypt key (aes_Encrypt key b) = b
}.

(** The standard algorithms. *)
#[export] Instance std_crypto : Crypto := {|
  md5_Sum := md5.Sum;
  sha256_Sum256 := sha256.Sum256;
  aes_Encrypt := aes.Encrypt;
  aes_Decrypt := aes.Decrypt
|}.

(* ================================================================= *)
(** ** philips/message.go: SessionID *)

(** [type SessionID uint32]. *)
Definition SessionID := N.

Definition uint32 (n : N) : N := n mod 2 ^ 32.

Definition checksumLen : nat := 32.
Definition magicWord : bytes := B "JiangPan".

(** [ParseID]: the input is cut to eight bytes, the error of [ParseUint]
    is discarded and its value converted to [uint32]. *)
Definition ParseID (data : bytes) : SessionID :=
  let data := if (8 <? List.length data)%nat then firstn 8 data else data in
  let '(s, _) := strconv.ParseUint16_32 data in
  uint32 s.

(** [SessionID.Hex]. *)
Definition Hex (id : SessionID) : bytes := fmt.Sprintf_08X id.

(** Modelled from the spec: [Session.Increment], the in-place increment of
    the 32-bit session counter.  [device.go] calls it, its declaration is
    in no file of the package embedded here; the earlier [Device.Session]
    computes the same step as [ParseID(rsp.Payload()) + 1] on the
    [uint32]. *)
Definition Increment (id : SessionID) : SessionID := uint32 (id + 1).

(* ================================================================= *)
(** ** philips/message.go: the codec *)

Section Message.

Context {crypto : Crypto}.

(** [aes.NewCipher]: the key must have 16, 24 or 32 bytes. *)
Definition aes_NewCipher (key : bytes) : result bytes :=
  match List.length key with
  | 16%nat | 24%nat | 32%nat => Ok key
  | n => Err (KeySizeError n)
  end.

(** [SessionID.keyIV]. *)
Definition keyIV (id : SessionID) : bytes * bytes :=
  let keyAndIV := md5_Sum (magicWord ++ Hex id) in
  let key := strings.ToUpper (hex.EncodeToString (firstn 8 keyAndIV)) in
  let iv := strings.ToUpper (hex.EncodeToString (skipn 8 keyAndIV)) in
  (key, iv).

(** [SessionID.Decrypt]. *)
Definition Decrypt (id : SessionID) (data : bytes) : result bytes :=
  let '(key, iv) := keyIV id in
  (block <- aes_NewCipher key ;;
   cipher.CBCDecrypt (aes_Decrypt block) iv data)%result.

(** [SessionID.Encrypt]. *)
Definition Encrypt (id : SessionID) (data : bytes) : result bytes :=
  let '(key, iv) := keyIV id in
  (block <- aes_NewCipher key ;;
   cipher.CBCEncrypt (aes_Encrypt block) iv data)%result.

(** The loop at the end of [DecodeMessage], on the reversed output: the
    head is [out[len(out)-1]]. *)
Fixpoint strip_loop (tuo : bytes) : bytes :=
  match tuo with
  | [] => []
  | c :: rest =>
      if (u8 c <? 1) || (16 <? u8 c) then tuo else strip_loop rest
  end.

Definition strip_padding (out : bytes) : bytes := rev (strip_loop (rev out)).

(** [DecodeMessage]. *)
Definition DecodeMessage (msg : bytes) : result bytes :=
  let sess := ParseID msg in
  (data <- wrapped "error decoding hex" (hex.DecodeString msg) ;;
   if (List.length data <? 4 + checksumLen)%nat then Err (Errorf "too few bytes")
   else
     let data := skipn 4 data in
     let data := firstn (List.length data - checksumLen) data in
     out <- wrapped "unable to decrypt" (Decrypt sess data) ;;
     Ok (strip_padding out))%result.

(** [EncodeMessage]. *)
Definition EncodeMessage (sess : SessionID) (msg : bytes) : result bytes :=
  if (List.length msg =? 0)%nat then Err (Errorf "too few bytes")
  else
    let padding := Nat.modulo (16 - Nat.modulo (List.length msg) 16) 16 in
    let msg := msg ++ repeat (byte_of (N.of_nat padding)) padding in
    (out <- wrapped "unable to encrypt" (Encrypt sess msg) ;;
     let outMsg := Hex sess ++ strings.ToUpper (hex.EncodeToString out) in
     let shaSum := sha256_Sum256 outMsg in
     Ok (outMsg ++ strings.ToUpper (hex.EncodeToString shaSum)))%result.

End Message.

(* ================================================================= *)
(** ** philips/device.go *)

(** [encoding/json] as the client uses it.  [json_Marshal msg] is
    [json.Marshal(Status{State: State{Desired: msg}})] and
    [json_Unmarshal payload] is [json.Unmarshal(payload, &state)] for a
    fresh [map[string]string]. *)
Class JSON := {
  Desired : Type;
  json_Marshal : Desired -> result bytes;
  json_Unmarshal : bytes -> result (list (bytes * bytes))
}.

Fixpoint bytes_eqb (a b : bytes) : bool :=
  match a, b with
  | [], [] => true
  | x :: a', y :: b' => Byte.eqb x y && bytes_eqb a' b'
  | _, _ => false
  end.

(** [state[key]] on a [map[string]string]: the empty string when the key
    is absent. *)
Fixpoint map_index (state : list (bytes * bytes)) (key : bytes) : bytes :=
  match state with
  | [] => []
  | (k, v) :: rest => if bytes_eqb k key then v else map_index rest key
  end.

(** The fields of [Device] that are data; [cc] and [ctx] are the handles
    of the transport, whose answers are arguments of the operations. *)
Record Device := mkDevice { addr : bytes; id : SessionID }.

(** An operation on a [*Device]: it may update the device and returns a
    value or an error. *)
Definition dev (A : Type) := Device -> Device * result A.

Definition dev_ret {A} (a : A) : dev A := fun d => (d, Ok a).

Definition dev_bind {A C} (m : dev A) (k : A -> dev C) : dev C :=
  fun d =>
    match m d with
    | (d', Ok a) => k a d'
    | (d', Err e) => (d', Err e)
    | (d', Panic msg) => (d', Panic msg)
    end.

(** [x, err := f(...); if err != nil { return err }]. *)
Definition dev_try {A} (r : result A) : dev A := fun d => (d, r).

Definition dev_get : dev Device := fun d => (d, Ok d).

Declare Scope dev_scope.
Delimit Scope dev_scope with dev.
Notation "x <- m ;; k" := (dev_bind m (fun x => k))
  (at level 61, m at next level, right associativity) : dev_scope.

(** [d.id.Increment()]. *)
Definition id_Increment : dev unit :=
  fun d => (mkDevice (addr d) (Increment (id d)), Ok tt).

Section DeviceClient.

Context {crypto : Crypto} {json : JSON}.

(** [New].  [dial] is the outcome of [cl.DialWithContext], [sess] the
    value of [NewSession()] and [post] the answer of the device to the
    post to [/sys/dev/sync]. *)
Definition New (address : bytes) (dial : result unit) (sess : SessionID)
    (post : bytes -> result bytes) : result Device :=
  (_ <- wrapped "error dialing" dial ;;
   rsp <- wrapped "failed to post to /sys/dev/sync and get session" (post (Hex sess)) ;;
   let id := ParseID rsp in
   let id := Increment id in
   Ok (mkDevice address id))%result.

(** [Device.Set].  [post] is the answer of the device to the post to
    [/sys/dev/control]: the payload of the response, or the error of
    [PostWithContext]. *)
Definition Device_Set (msg : Desired) (post : bytes -> result bytes) : dev unit :=
  (data <- dev_try (json_Marshal msg) ;;
   d <- dev_get ;;
   newMsg <- dev_try (EncodeMessage (id d) data) ;;
   resp <- dev_try (post newMsg) ;;
   _ <- id_Increment ;;
   state <- dev_try (json_Unmarshal resp) ;;
   if negb (bytes_eqb (map_index state (B "status")) (B "success")) then
     dev_try (Err (Errorf "did not manage to set value"))
   else dev_ret tt)%dev.

(** One call of [Set] as the caller sees it: the message and what the
    transport answers. *)
Definition call := (Desired * (bytes -> result bytes))%type.

(** The device after a sequence of calls of [Set]. *)
Definition after_calls (calls : list call) (d : Device) : Device :=
  fold_left (fun d c => fst (Device_Set (fst c) (snd c) d)) calls d.

(** A call whose request is posted and answered by the device. *)
Definition answered (c : call) : Prop :=
  (exists data, json_Marshal (fst c) = Ok data /\ data <> [])
  /\ forall frame, exists resp, snd c frame = Ok resp.

End DeviceClient.

(** The part of [encoding/json] that the examples need: a desired state
    is given by the text of its fields, and only the two acknowledgements
    below are understood. *)
Definition quote (s : string) : bytes := [x22] ++ B s ++ [x22].

Definition ack (status : string) : bytes :=
  B "{" ++ quote "status" ++ B ":" ++ quote status ++ B "}".

#[export] Instance example_json : JSON := {|
  Desired := bytes;
  json_Marshal := fun fields =>
    Ok (B "{" ++ quote "state" ++ B ":{" ++ quote "desired" ++ B ":{" ++ fields ++ B "}}}");
  json_Unmarshal := fun payload =>
    if bytes_eqb payload (ack "success") then Ok [(B "status", B "success")]
    else if bytes_eqb payload (ack "failed") then Ok [(B "status", B "failed")]
    else Err JSONError
|}.

(** [{"pwr":"1"}] without the braces. *)
Definition power_on : bytes := quote "pwr" ++ B ":" ++ quote "1".

(* ================================================================= *)
(** ** philips: AirQuality *)

Definition AirQuality := Z.

Definition AirQuality_ToHemtjanst (a : AirQuality) : string :=
  (if a =? 1 then "1"
   else if (a =? 2) || (a =? 3) then "2"
   else if (a =? 4) || (a =? 5) || (a =? 6) then "3"
   else if (a =? 7) || (a =? 8) || (a =? 9) then "4"
   else if (a =? 10) || (a =? 11) || (a =? 12) then "5"
   else "5")%Z%string.

(* ================================================================= *)
(** ** philips: the state model *)

(** [type FanSpeed string], [type Function string], [type Mode string],
    [type Power string]; [type Brightness int], [type ErrorCode int]. *)
Definition FanSpeed := bytes.
Definition Function := bytes.
Definition Mode := bytes.
Definition Power := bytes.
Definition Brightness := Z.
Definition ErrorCode := Z.

Definition Silent : FanSpeed := B "s".
Definition Speed1 : FanSpeed := B "1".
Definition Speed2 : FanSpeed := B "2".
Definition Speed3 : FanSpeed := B "3".
Definition Turbo : FanSpeed := B "t".

Definition Off : Power := B "0".
Definition On : Power := B "1".

Definition Manual : Mode := B "M".

Definition Purification : Function := B "P".
Definition PurificationHumidification : Function := B "PH".

Definition ErrNoWater : ErrorCode := 49408%Z.
Definition ErrWaterTankOpen : ErrorCode := 32768%Z.
Definition ErrCleanFilter : ErrorCode := 49155%Z.

(** [Brightness.ToHemtjanst]. *)
Definition Brightness_ToHemtjanst (b : Brightness) : bytes := strconv.Itoa b.

(** [FanSpeed.ToHemtjanst]. *)
Definition FanSpeed_ToHemtjanst (f : FanSpeed) : bytes :=
  if bytes_eqb f Silent then B "5"
  else if bytes_eqb f Speed1 then B "20"
  else if bytes_eqb f Speed2 then B "40"
  else if bytes_eqb f Speed3 then B "80"
  else if bytes_eqb f Turbo then B "100"
  else B "0".

(** [Function.ToHemtjanst]. *)
Definition Function_ToHemtjanst (f : Function) : bytes :=
  if bytes_eqb f PurificationHumidification then B "2" else B "0".

(** [Power.ToHemtjanst]. *)
Definition Power_ToHemtjanst (p : Power) : bytes := p.

(** The fields of [Status.State.Reported] that the client reads. *)
Record Reported := mkReported {
  R_FanSpeed : FanSpeed;
  R_Power : Power;
  R_ChildLock : bool;
  R_Brightness : Brightness;
  R_Mode : Mode;
  R_Function : Function;
  R_RelativeHumidityTarget : Z;
  R_RelativeHumidity : Z;
  R_Temperature : Z;
  R_ParticulateMatter25 : Z;
  R_AirQuality : AirQuality;
  R_Err : ErrorCode;
  R_WaterLevel : Z;
  R_PrefilterAndWickCleanIn : Z;
  R_HEPAFilterReplaceIn : Z;
  R_ActiveCarbonFilterReplaceIn : Z;
  R_WickReplaceIn : Z
}.

(* ================================================================= *)
(** ** philips/device.go, earlier version: Device.Session *)

(** [Device.Session]: [sess] is the value of [NewID()] and [post] the
    answer of the device to the post to [/sys/dev/sync]. *)
Definition Device_Session (sess : SessionID) (post : bytes -> result bytes)
  : result SessionID :=
  (rsp <- wrapped "failed to post to /sys/dev/sync and get session" (post (Hex sess)) ;;
   let id := uint32 (ParseID rsp + 1) in
   Ok id)%result.

(* ================================================================= *)
(** ** main.go: the handlers of the bridge *)

Module math.

(** The nearest of the integers that a [float64] can hold to a natural
    number, ties going to the even mantissa of 53 bits. *)
Definition round53 (a : Z) : Z :=
  (if a <? 2 ^ 53 then a
   else
     let e := Z.log2 a - 52 in
     let q := a / 2 ^ e in
     let r := a mod 2 ^ e in
     let half := 2 ^ (e - 1) in
     if r <? half then q * 2 ^ e
     else if half <? r then (q + 1) * 2 ^ e
     else if Z.even q then q * 2 ^ e
     else (q + 1) * 2 ^ e)%Z.

(** [float64(x)] for an [int] [x], as the integer that the result is. *)
Definition float64_of_int (x : Z) : Z :=
  (if x <? 0 then - round53 (- x) else round53 x)%Z.

End math.

(** [int(math.Min(float64(pm25), 100))]: the conversion to [float64]
    rounds to an integer, the minimum with 100 is at most 100 and the
    conversion back is exact. *)
Definition pm2_5Density (pm25 : Z) : Z := Z.min (math.float64_of_int pm25) 100.

Definition twoWeeks : Z := 336.

(** What a handler does that can be seen from outside: lines of the log,
    the acknowledgement written to the device, updates of features, and a
    panic that ends it. *)
Inductive log_entry :=
| LogPayload (payload : bytes)
| LogAckFailed
| LogError (e : error)
| LogDecoded (resp : bytes)
| LogStatus (data : Reported).

Inductive event :=
| Log (l : log_entry)
| WriteAck
| Update (feature : string) (value : bytes)
| Panics (msg : string).

(** [json.Unmarshal(resp, &data)] for a [philips.Status], as far as
    [data.State.Reported] goes. *)
Class StatusJSON := {
  json_Unmarshal_Status : bytes -> result Reported
}.

(** The features that [run] registers with the device on the bus. *)
Definition registered_features : list string :=
  ["on"; "brightness"; "currentAirPurifierState"; "targetAirPurifierState";
   "currentFanState"; "targetFanState"; "rotationSpeed"; "lockPhysicalControls";
   "airQuality"; "pm2_5Density"; "filterChangeIndication";
   "currentRelativeHumidity"; "targetRelativeHumidity";
   "currentHumidifierDehumidifierState"; "targetHumidifierDehumidifierState";
   "currentTemperature"; "waterLevel"]%string.

(** The updates that [handleObserve] makes for a decoded status. *)
Definition feature_updates (update : Reported) : list event :=
  [Update "on" (Power_ToHemtjanst (R_Power update));
   Update "targetHumidifierDehumidifierState" (B "1")]
  ++ (if R_ChildLock update then [Update "lockPhysicalControls" (B "1")]
      else [Update "lockPhysicalControls" (B "0")])
  ++ (if bytes_eqb (R_Mode update) Manual then
        [Update "targetAirPurifierState" (B "0"); Update "targetFanState" (B "0")]
      else
        [Update "targetAirPurifierState" (B "1"); Update "targetFanState" (B "1")])
  ++ (if bytes_eqb (R_Power update) On then
        [Update "brightness" (Brightness_ToHemtjanst (R_Brightness update));
         Update "currentAirPurifierState" (B "2");
         Update "currentFanState" (B "2");
         Update "rotationSpeed" (FanSpeed_ToHemtjanst (R_FanSpeed update));
         Update "airQuality" (B (AirQuality_ToHemtjanst (R_AirQuality update)));
         Update "pm2_5Density" (strconv.Itoa (pm2_5Density (R_ParticulateMatter25 update)))]
        ++ (if (R_ActiveCarbonFilterReplaceIn update <=? twoWeeks)%Z
               || (R_HEPAFilterReplaceIn update <=? twoWeeks)%Z
               || (R_WickReplaceIn update <=? twoWeeks)%Z
               || (R_PrefilterAndWickCleanIn update <=? 0)%Z
               || (R_Err update =? ErrCleanFilter)%Z
            then [Update "filterChangeIndication" (B "1")]
            else [Update "filterChangeIndication" (B "0")])
        ++ [Update "currentRelativeHumidity" (strconv.Itoa (R_RelativeHumidity update));
            Update "targetRelativeHumidity" (strconv.Itoa (R_RelativeHumidityTarget update));
            Update "currentHumidifierDehumidifierState"
                   (Function_ToHemtjanst (R_Function update));
            Update "currentTemperature" (strconv.Itoa (R_Temperature update));
            Update "waterLevel" (strconv.Itoa (R_WaterLevel update))]
      else
        [Update "brightness" (B "0");
         Update "currentAirPurifierState" (B "0");
         Update "currentFanState" (B "0");
         Update "rotationSpeed" (B "0");
         Update "currentHumidifierDehumidifierState" (B "0")]).

Section Bridge.

Context {crypto : Crypto} {status_json : StatusJSON}.

(** The callback that [handleObserve] returns.  [debug] is the flag of
    that name, [confirmable] is [req.Msg.IsConfirmable()], [write_failed]
    tells whether [req.Client.WriteMsg] returned an error and [payload] is
    [req.Msg.Payload()]. *)
Definition handleObserve (debug confirmable write_failed : bool) (payload : bytes)
  : list event :=
  (if debug then [Log (LogPayload payload)] else [])
  ++ (if confirmable then
        WriteAck :: (if write_failed then [Log LogAckFailed] else [])
      else [])
  ++ match DecodeMessage payload with
     | Err e => [Log (LogError e)]
     | Panic m => [Panics m]
     | Ok resp =>
         (if debug then [Log (LogDecoded resp)] else [])
         ++ match json_Unmarshal_Status resp with
            | Err e => [Log (LogError e)]
            | Panic m => [Panics m]
            | Ok data =>
                (if debug then [Log (LogStatus data)] else [])
                ++ feature_updates data
            end
     end.

(** The function that [run] registers with [OnSetFunc] for the feature
    "on", as an operation on [myId]: the counter after the call and the
    frame handed to [cl.Post], whose answer is discarded. *)
Definition OnSet (v : bytes) (myId : SessionID) : SessionID * result bytes :=
  let v := if negb (bytes_eqb v (B "1")) then B "0" else v in
  let data := B "{" ++ quote "state" ++ B ":{" ++ quote "desired" ++ B ":{"
              ++ quote "pwr" ++ B ":" ++ [x22] ++ v ++ [x22] ++ B "}}}" in
  match EncodeMessage myId data with
  | Ok newMsg => (uint32 (myId + 1), Ok newMsg)
  | Err e => (myId, Err e)
  | Panic m => (myId, Panic m)
  end.

End Bridge.

(* ================================================================= *)
(** ** cmd/klimat/control: the subcommands *)

Definition Brightness0 : Brightness := 0%Z.
Definition Brightness25 : Brightness := 25%Z.
Definition Brightness50 : Brightness := 50%Z.
Definition Brightness75 : Brightness := 75%Z.
Definition Brightness100 : Brightness := 100%Z.

Definition Auto : Mode := B "P".
Definition Allergen : Mode := B "A".
Definition Sleep : Mode := B "S".
Definition Bacteria : Mode := B "B".
Definition Night : Mode := B "N".

Definition DisplayMode := bytes.
Definition IAQ : DisplayMode := B "0".
Definition PM25 : DisplayMode := B "1".
Definition Humidity : DisplayMode := B "3".

(** [flag.ErrHelp]. *)
Definition ErrHelp : error := Errorf "flag: help requested".

(** What the transport and the random source give to one run of a
    subcommand: the outcome of dialling, the value of [NewSession()], the
    answers of the device to the post to [/sys/dev/sync] and to the post
    to [/sys/dev/control]. *)
Record world := mkWorld {
  dial : result unit;
  fresh : SessionID;
  sync : bytes -> result bytes;
  control : bytes -> result bytes
}.

Section Control.

Context {crypto : Crypto} {json : JSON}.

(** The literals [&philips.Desired{Field: &v}], one for each field that a
    subcommand sets; [Desired] is declared outside the files embedded
    here. *)
Variable Desired_Brightness : Brightness -> Desired.
Variable Desired_DisplayMode : DisplayMode -> Desired.
Variable Desired_FanSpeed : FanSpeed -> Desired.
Variable Desired_Function : Function -> Desired.
Variable Desired_RelativeHumidityTarget : Z -> Desired.
Variable Desired_ChildLock : bool -> Desired.
Variable Desired_Mode : Mode -> Desired.
Variable Desired_Power : Power -> Desired.

(** [strings.ToLower] outside ASCII, and the error that [strconv.Atoi]
    returns for a text. *)
Variable unicode_map : bytes -> bytes.
Variable NumError : bytes -> error.

(** The fast path of [strconv.Atoi], taken for a text of 1 to 18 bytes; a
    text of any other length goes through [ParseInt], which [slow] stands
    for. *)
Fixpoint atoi_loop (s0 s : bytes) (n : Z) : result Z :=
  match s with
  | [] => Ok n
  | ch :: rest =>
      let ch := (u8 ch + 256 - 48) mod 256 in
      if 9 <? ch then Err (NumError s0)
      else atoi_loop s0 rest (n * 10 + Z.of_N ch)%Z
  end.

Definition Atoi (slow : bytes -> result Z) (s : bytes) : result Z :=
  if ((0 <? List.length s) && (List.length s <? 19))%nat then
    let s0 := s in
    let signed := match s with
                  | c :: _ => Byte.eqb c x2d || Byte.eqb c x2b
                  | [] => false
                  end in
    let s := if signed then tl s else s in
    if signed && (List.length s <? 1)%nat then Err (NumError s0)
    else
      (n <- atoi_loop s0 s 0%Z ;;
       Ok (match s0 with
           | c :: _ => if Byte.eqb c x2d then (- n)%Z else n
           | [] => n
           end))%result
  else slow s.

Variable ParseInt_slow : bytes -> result Z.

(** The course that the eight subcommands share: no value, no call;
    then [philips.New], the choice of the value from the lowered first
    argument, and [Set]. *)
Definition subcommand (choose : bytes -> result Desired) (host : bytes)
    (args : list bytes) (w : world) : result unit :=
  match args with
  | [] => Err ErrHelp
  | arg :: _ =>
      (cl <- New host (dial w) (fresh w) (sync w) ;;
       let dest := strings.ToLower unicode_map arg in
       v <- choose dest ;;
       snd (Device_Set v (control w) cl))%result
  end.

(** [config.brightness]. *)
Definition brightness : bytes -> list bytes -> world -> result unit :=
  subcommand (fun dest =>
    if bytes_eqb dest (B "on") then Ok (Desired_Brightness Brightness100)
    else if bytes_eqb dest (B "off") then Ok (Desired_Brightness Brightness0)
    else if bytes_eqb dest (B "25") then Ok (Desired_Brightness Brightness25)
    else if bytes_eqb dest (B "50") then Ok (Desired_Brightness Brightness50)
    else if bytes_eqb dest (B "75") then Ok (Desired_Brightness Brightness75)
    else Err ErrHelp).

(** [config.display]. *)
Definition display : bytes -> list bytes -> world -> result unit :=
  subcommand (fun dest =>
    if bytes_eqb dest (B "iaq") then Ok (Desired_DisplayMode IAQ)
    else if bytes_eqb dest (B "humidity") then Ok (Desired_DisplayMode Humidity)
    else if bytes_eqb dest (B "pm25") then Ok (Desired_DisplayMode PM25)
    else Err ErrHelp).

(** [config.fanspeed]. *)
Definition fanspeed : bytes -> list bytes -> world -> result unit :=
  subcommand (fun dest =>
    if bytes_eqb dest (B "silent") then Ok (Desired_FanSpeed Silent)
    else if bytes_eqb dest (B "turbo") then Ok (Desired_FanSpeed Turbo)
    else if bytes_eqb dest (B "1") then Ok (Desired_FanSpeed Speed1)
    else if bytes_eqb dest (B "2") then Ok (Desired_FanSpeed Speed2)
    else if bytes_eqb dest (B "3") then Ok (Desired_FanSpeed Speed3)
    else Err ErrHelp).

(** [config.function]. *)
Definition function : bytes -> list bytes -> world -> result unit :=
  subcommand (fun dest =>
    if bytes_eqb dest (B "purification") then Ok (Desired_Function Purification)
    else if bytes_eqb dest (B "humidification") then
      Ok (Desired_Function PurificationHumidification)
    else Err ErrHelp).

(** [config.humidity]. *)
Definition humidity : bytes -> list bytes -> world -> result unit :=
  subcommand (fun dest =>
    if bytes_eqb dest (B "40") || bytes_eqb dest (B "50") || bytes_eqb dest (B "60") then
      (v <- Atoi ParseInt_slow dest ;; Ok (Desired_RelativeHumidityTarget v))%result
    else if bytes_eqb dest (B "max") then Ok (Desired_RelativeHumidityTarget 70%Z)
    else Err ErrHelp).

(** [config.lock]. *)
Definition lock : bytes -> list bytes -> world -> result unit :=
  subcommand (fun dest =>
    if bytes_eqb dest (B "on") || bytes_eqb dest (B "yes") then Ok (Desired_ChildLock true)
    else Ok (Desired_ChildLock false)).

(** [config.mode]. *)
Definition mode : bytes -> list bytes -> world -> result unit :=
  subcommand (fun dest =>
    if bytes_eqb dest (B "auto") then Ok (Desired_Mode Auto)
    else if bytes_eqb dest (B "allergen") then Ok (Desired_Mode Allergen)
    else if bytes_eqb dest (B "bacteria") then Ok (Desired_Mode Bacteria)
    else if bytes_eqb dest (B "manual") then Ok (Desired_Mode Manual)
    else if bytes_eqb dest (B "night") then Ok (Desired_Mode Night)
    else if bytes_eqb dest (B "sleep") then Ok (Desired_Mode Sleep)
    else Err ErrHelp).

(** [config.power]. *)
Definition power : bytes -> list bytes -> world -> result unit :=
  subcommand (fun dest =>
    if bytes_eqb dest (B "on") || bytes_eqb dest (B "yes") then Ok (Desired_Power On)
    else Ok (Desired_Power Off)).

End Control.

(* ================================================================= *)
(** ** The decoder as the protocol description words it *)

Section Described.

Context {crypto : Crypto}.

(** The description has the session read from the leading eight
    characters, the remainder of the frame hex-decoded, at least 4 + 32
    bytes required of that, and its first four and last 32 bytes dropped
    before decryption. *)
Definition DecodeMessage_described (msg : bytes) : result bytes :=
  let sess := ParseID (firstn 8 msg) in
  (data <- wrapped "error decoding hex" (hex.DecodeString (skipn 8 msg)) ;;
   if (List.length data <? 4 + checksumLen)%nat then Err (Errorf "too few bytes")
   else
     let data := skipn 4 data in
     let data := firstn (List.length data - checksumLen) data in
     out <- wrapped "unable to decrypt" (Decrypt sess data) ;;
     Ok (strip_padding out))%result.

End Described.

(* ================================================================= *)
(** ** Vocabulary of the statements *)

(** The bytes that a text of hexadecimal digits stands for. *)
Definition unhex (s : string) : bytes :=
  match hex.DecodeString (B s) with Ok b => b | _ => [] end.

(** A hexadecimal digit of either case. *)
Definition is_hex_digit (c : byte) : bool :=
  let n := u8 c in
  ((48 <=? n) && (n <=? 57)) || ((97 <=? n) && (n <=? 102)) || ((65 <=? n) && (n <=? 70)).

(** An upper-case hexadecimal digit. *)
Definition is_upper_hex_digit (c : byte) : bool :=
  let n := u8 c in
  ((48 <=? n) && (n <=? 57)) || ((65 <=? n) && (n <=? 70)).

(** A text that [strconv.ParseUint(s, 16, 32)] can read as far as its
    syntax goes: not empty, hexadecimal digits only. *)
Definition hex_text (s : bytes) : bool :=
  negb (List.length s =? 0)%nat && forallb is_hex_digit s.

(** The number that the digits of [s] denote after the digits of [n]. *)
Definition hexval (s : bytes) (n : N) : N :=
  fold_left (fun a c => a * 16 + match strconv.digit_val c with
                                 | Some d => d
                                 | None => 0
                                 end) s n.

(** The upper-case hexadecimal text of a byte string, two digits a byte. *)
Definition upper_hex (s : bytes) : bytes :=
  flat_map (fun v => [fmt.udigit (u8 v / 16); fmt.udigit (u8 v mod 16)]) s.

(** The bytes that a text of hexadecimal digits denotes, two digits a
    byte; a digit left over at the end is dropped. *)
Fixpoint hex_bytes (s : bytes) : bytes :=
  match s with
  | p :: q :: rest =>
      match hex.fromHexChar p, hex.fromHexChar q with
      | Some a, Some b => byte_of (N.lor (N.shiftl a 4) b) :: hex_bytes rest
      | _, _ => []
      end
  | _ => []
  end.

(** The last [n] items of a list. *)
Definition lastn {A} (n : nat) (l : list A) : list A :=
  skipn (List.length l - n) l.

(** A byte that the decoder takes for padding. *)
Definition pad_byte (c : byte) : bool := (1 <=? u8 c) && (u8 c <=? 16).

(** The fan speeds that the firmware knows. *)
Definition known_speeds : list FanSpeed := [Silent; Speed1; Speed2; Speed3; Turbo].

(** The names of the features that a run of a handler updates, in order. *)
Definition updated (evs : list event) : list string :=
  flat_map (fun e => match e with Update f _ => [f] | _ => [] end) evs.

(** The request that [OnSet] builds for the power state [v]. *)
Definition power_request (v : bytes) : bytes :=
  B "{" ++ quote "state" ++ B ":{" ++ quote "desired" ++ B ":{"
  ++ quote "pwr" ++ B ":" ++ [x22] ++ v ++ [x22] ++ B "}}}".

(** A status of a device that is switched on. *)
Definition status_on : Reported :=
  mkReported Speed2 On false 50%Z (B "P") Purification 50%Z 41%Z 21%Z 250%Z 3%Z 0%Z
             100%Z 200%Z 2000%Z 2000%Z 2000%Z.

(** The text of a pushed status, as far as the examples go, and the part
    of [encoding/json] that reads it. *)
Definition status_text : bytes :=
  B "{" ++ quote "state" ++ B ":{" ++ quote "reported" ++ B ":{"
  ++ quote "pwr" ++ B ":" ++ quote "1" ++ B "}}}".

#[export] Instance example_status_json : StatusJSON := {|
  json_Unmarshal_Status := fun resp =>
    if bytes_eqb resp status_text then Ok status_on else Err JSONError
|}.

(** The frame of [status_text] under the session [0000000B]. *)
Definition status_frame : bytes :=
  match EncodeMessage 11 status_text with
  | Ok frame => frame
  | _ => []
  end.

(** A decimal digit, and the number that the decimal digits of [s] denote
    after the digits of [n]. *)
Definition is_decimal_digit (c : byte) : bool := (48 <=? u8 c) && (u8 c <=? 57).

Definition decval (s : bytes) (n : N) : N :=
  fold_left (fun a c => a * 10 + (u8 c - 48)) s n.

(** The values that the subcommands take, lowered. *)
Definition brightness_values : list bytes := [B "on"; B "off"; B "25"; B "50"; B "75"].
Definition display_values : list bytes := [B "iaq"; B "humidity"; B "pm25"].
Definition fanspeed_values : list bytes := [B "silent"; B "turbo"; B "1"; B "2"; B "3"].
Definition function_values : list bytes := [B "purification"; B "humidification"].
Definition humidity_values : list bytes := [B "40"; B "50"; B "60"; B "max"].
Definition mode_values : list bytes :=
  [B "auto"; B "allergen"; B "bacteria"; B "manual"; B "night"; B "sleep"].

(** A world in which the device answers the handshake and refuses
    nothing. *)
Definition friendly_world : world :=
  mkWorld (Ok tt) 7 (fun _ => Ok (B "0000000A")) (fun _ => Ok (ack "success")).

(** A value of the type [uint32]. *)
Definition is_uint32 (n : N) : Prop := n < 2 ^ 32.

(* ================================================================= *)
(** ** Examples *)

(** The request that turns the device on. *)
Definition power_on_request : bytes :=
  B "{" ++ quote "state" ++ B ":{" ++ quote "desired" ++ B ":{" ++ power_on ++ B "}}}".

(** The frame of [power_on_request] under the session [0000000B]. *)
Definition power_on_frame : bytes :=
  B "0000000B698EA726A265C48549F18D0A5269F096648A16F75D9C625A22F3A16D23CBA98EA1CB6C3FDB86630AE862DDDCCE459E78C7F6FB3CE7F41FF9DEA31F199C975FDFC2B41C10FAA232F6475FC14D45F414BA".

(** An empty JSON object followed by a line feed. *)
Definition json_line : bytes := B "{}" ++ [x0a].

(** Three calls of [Set]: refused by the device, accepted, and answered
    with a payload that is no JSON. *)
Definition three_calls : list (@call example_json) :=
  [(power_on, fun _ => Ok (ack "failed"));
   (power_on, fun _ => Ok (ack "success"));
   (power_on, fun _ => Ok (B "???"))].

(** One call of [Set] whose post times out. *)
Definition lost_call : list (@call example_json) :=
  [(power_on, fun _ => Err TransportError)].

(* ================================================================= *)
(** * Properties *)

Example ParseID_example : ParseID (B "0000000A") = 10.
Proof. reflexivity. Qed.

Example Hex_example : Hex 11 = B "0000000B".
Proof. reflexivity. Qed.

Example ParseID_garbage : ParseID (B "12x4") = 0.
Proof. reflexivity. Qed.

Example md5_empty :
  hex.EncodeToString (md5.Sum []) = B "d41d8cd98f00b204e9800998ecf8427e".
Proof. vm_compute. reflexivity. Qed.

Example md5_magic :
  hex.EncodeToString (md5.Sum (B "JiangPan0000000B")) = B "2a564b6fd1b753b4db4db0f798fb6bd4".
Proof. vm_compute. reflexivity. Qed.

Example sha256_abc :
  hex.EncodeToString (sha256.Sum256 (B "abc"))
  = B "ba7816bf8f01cfea414140de5dae2223b00361a396177a9cb410ff61f20015ad".
Proof. vm_compute. reflexivity. Qed.

Example aes_sbox_values :
  aes.SubByte x00 = x63 /\ aes.SubByte x01 = x7c /\ aes.SubByte x53 = xed
  /\ aes.InvSubByte x63 = x00.
Proof. vm_compute. auto. Qed.

Example aes_fips197_C1 :
  aes.Encrypt (unhex "000102030405060708090a0b0c0d0e0f")
              (unhex "00112233445566778899aabbccddeeff")
  = unhex "69c4e0d86a7b0430d8cdb78070b4c55a".
Proof. vm_compute. reflexivity. Qed.

Example aes_fips197_B :
  aes.Encrypt (unhex "2b7e151628aed2a6abf7158809cf4f3c")
              (unhex "3243f6a8885a308d313198a2e0370734")
  = unhex "3925841d02dc09fbdc118597196a0b32".
Proof. vm_compute. reflexivity. Qed.

Example aes_fips197_C3 :
  aes.Encrypt (unhex "000102030405060708090a0b0c0d0e0f101112131415161718191a1b1c1d1e1f")
              (unhex "00112233445566778899aabbccddeeff")
  = unhex "8ea2b7ca516745bfeafc49904b496089".
Proof. vm_compute. reflexivity. Qed.

Example aes_fips197_C1_inv :
  aes.Decrypt (unhex "000102030405060708090a0b0c0d0e0f")
              (unhex "69c4e0d86a7b0430d8cdb78070b4c55a")
  = unhex "00112233445566778899aabbccddeeff".
Proof. vm_compute. reflexivity. Qed.

Example keyIV_example :
  keyIV 11 = (B "2A564B6FD1B753B4", B "DB4DB0F798FB6BD4").
Proof. vm_compute. reflexivity. Qed.

Example New_example :
  New (B "192.0.2.1") (Ok tt) 305419896 (fun _ => Ok (B "0000000A"))
  = Ok (mkDevice (B "192.0.2.1") 11).
Proof. reflexivity. Qed.

Example Set_example :
  Device_Set power_on (fun _ => Ok (ack "failed")) (mkDevice [] 11)
  = (mkDevice [] 12, Err (Errorf "did not manage to set value")).
Proof. vm_compute. reflexivity. Qed.

Example Set_example_ok :
  Device_Set power_on (fun _ => Ok (ack "success")) (mkDevice [] 11)
  = (mkDevice [] 12, Ok tt).
Proof. vm_compute. reflexivity. Qed.

Example Set_example_timeout :
  Device_Set power_on (fun _ => Err TransportError) (mkDevice [] 11)
  = (mkDevice [] 11, Err TransportError).
Proof. vm_compute. reflexivity. Qed.

(* ================================================================= *)
(** ** Bytes *)

Lemma Ok_inj {A} (a b : A) : Ok a = Ok b -> a = b.
Proof. now intros [= ->]. Qed.

Lemma u8_lt (b : byte) : u8 b < 256.
Proof. unfold u8. pose proof (Byte.to_N_bounded b). lia. Qed.

Lemma byte_of_u8 (b : byte) : byte_of (u8 b) = b.
Proof.
  unfold byte_of, u8. rewrite N.mod_small by (pose proof (Byte.to_N_bounded b); lia).
  now rewrite Byte.of_to_N.
Qed.

Lemma u8_byte_of (n : N) : u8 (byte_of n) = n mod 256.
Proof.
  unfold byte_of, u8. destruct (Byte.of_N (n mod 256)) as [b|] eqn:E.
  - now apply Byte.to_of_N.
  - apply Byte.of_N_None_iff in E. pose proof (N.mod_lt n 256). lia.
Qed.

Lemma u8_inj (a b : byte) : u8 a = u8 b -> a = b.
Proof. intros H. rewrite <- (byte_of_u8 a), <- (byte_of_u8 b). now rewrite H. Qed.

(** A property of bytes that a boolean test decides holds for all of them
    as soon as it holds on the 256 of [aes.all_bytes]. *)
Lemma all_bytes_complete (b : byte) : In b aes.all_bytes.
Proof.
  unfold aes.all_bytes. apply in_map_iff. exists (N.to_nat (u8 b)). split.
  - rewrite N2Nat.id. apply byte_of_u8.
  - apply in_seq. pose proof (u8_lt b). lia.
Qed.

Lemma for_all_bytes (P : byte -> bool) :
  forallb P aes.all_bytes = true -> forall b, P b = true.
Proof. intros H b. rewrite forallb_forall in H. apply H, all_bytes_complete. Qed.

Lemma for_all_bytes2 (P : byte -> byte -> bool) :
  forallb (fun a => forallb (P a) aes.all_bytes) aes.all_bytes = true ->
  forall a b, P a b = true.
Proof. intros H a b. apply for_all_bytes. now apply (for_all_bytes _ H a). Qed.

(* ================================================================= *)
(** ** SessionID: ParseID and Hex *)

Lemma is_hex_digit_digit_val (c : byte) :
  is_hex_digit c = true ->
  exists d, strconv.digit_val c = Some d /\ d < 16.
Proof.
  intros H. destruct c; try discriminate H; vm_compute; eauto.
Qed.

Lemma not_hex_digit_digit_val (c : byte) :
  is_hex_digit c = false ->
  match strconv.digit_val c with Some d => 16 <=? d | None => true end = true.
Proof.
  intros H. destruct c; try discriminate H; reflexivity.
Qed.

Lemma is_upper_hex_is_hex (c : byte) :
  is_upper_hex_digit c = true -> is_hex_digit c = true.
Proof. intros H. destruct c; try discriminate H; reflexivity. Qed.

(** With room left for the digits of [s] below [2^32], [ParseUint] meets
    no range error: it reads the number, or stops at the first character
    that is no digit. *)
Lemma parse_loop_hex (s : bytes) : forall n,
  (n + 1) * 16 ^ N.of_nat (List.length s) <= 2 ^ 32 ->
  strconv.parse_loop s n =
    if forallb is_hex_digit s then (hexval s n, None)
    else (0, Some strconv.ErrSyntax).
Proof.
  induction s as [|c rest IH]; intros n Hn; [reflexivity|].
  cbn [strconv.parse_loop forallb hexval fold_left List.length] in *.
  rewrite Nat2N.inj_succ, N.pow_succ_r' in Hn.
  assert (Hpos : 1 <= 16 ^ N.of_nat (List.length rest)).
  { pose proof (N.pow_nonzero 16 (N.of_nat (List.length rest))). lia. }
  destruct (is_hex_digit c) eqn:Hc.
  - destruct (is_hex_digit_digit_val c Hc) as (d & -> & Hd). cbn [andb].
    destruct (16 <=? d) eqn:E1; [apply N.leb_le in E1; lia|].
    assert (Hn32 : n * 16 + d + 1 <= 2 ^ 32) by nia.
    assert (E2 : (strconv.cutoff16 <=? n) = false).
    { apply N.leb_gt. unfold strconv.cutoff16.
      change (2 ^ 64 / 16) with 1152921504606846976.
      change (2 ^ 32) with 4294967296 in Hn32. lia. }
    rewrite E2.
    change (2 ^ 32) with 4294967296 in Hn32.
    rewrite (N.mod_small (n * 16)) by (change (2 ^ 64) with 18446744073709551616; lia).
    rewrite (N.mod_small (n * 16 + d)) by (change (2 ^ 64) with 18446744073709551616; lia).
    assert (E3 : (n * 16 + d <? n * 16) = false) by (apply N.ltb_ge; lia).
    assert (E4 : (strconv.maxVal32 <? n * 16 + d) = false).
    { apply N.ltb_ge. unfold strconv.maxVal32. change (2 ^ 32 - 1) with 4294967295. lia. }
    rewrite E3, E4. cbn [orb].
    rewrite IH; [reflexivity|].
    change (2 ^ 32) with 4294967296 in *. nia.
  - cbn [andb]. pose proof (not_hex_digit_digit_val c Hc) as H.
    destruct (strconv.digit_val c) as [d|]; [|reflexivity].
    now rewrite H.
Qed.

Lemma pow16_le_8 (n : nat) : (n <= 8)%nat -> 16 ^ N.of_nat n <= 2 ^ 32.
Proof.
  intros H. change (2 ^ 32) with (16 ^ 8). apply N.pow_le_mono_r; lia.
Qed.

Lemma hexval_lt (s : bytes) : forall n,
  forallb is_hex_digit s = true ->
  hexval s n < (n + 1) * 16 ^ N.of_nat (List.length s).
Proof.
  induction s as [|c rest IH]; intros n Hs.
  - cbn. lia.
  - cbn [forallb] in Hs. apply andb_true_iff in Hs as [Hc Hs].
    destruct (is_hex_digit_digit_val c Hc) as (d & Hd & Hlt).
    cbn [hexval fold_left List.length]. rewrite Hd.
    rewrite Nat2N.inj_succ, N.pow_succ_r'.
    specialize (IH (n * 16 + d) Hs). unfold hexval in IH.
    assert (1 <= 16 ^ N.of_nat (List.length rest)).
    { pose proof (N.pow_nonzero 16 (N.of_nat (List.length rest))). lia. }
    nia.
Qed.

(** [ParseID] on a text of at most eight bytes. *)
Lemma ParseID_short (data : bytes) :
  (List.length data <= 8)%nat ->
  ParseID data = if hex_text data then hexval data 0 else 0.
Proof.
  intros Hlen. unfold ParseID.
  destruct (8 <? List.length data)%nat eqn:E; [apply Nat.ltb_lt in E; lia|].
  unfold strconv.ParseUint16_32, hex_text.
  destruct data as [|c rest]; [reflexivity|].
  pose proof (pow16_le_8 _ Hlen) as Hp.
  rewrite parse_loop_hex by lia.
  cbn [List.length Nat.eqb negb andb].
  destruct (forallb is_hex_digit (c :: rest)) eqn:Hs; [|reflexivity].
  unfold uint32. apply N.mod_small.
  pose proof (hexval_lt _ 0 Hs). cbn [List.length] in *. lia.
Qed.

Lemma ParseID_firstn (data : bytes) : ParseID data = ParseID (firstn 8 data).
Proof.
  unfold ParseID.
  destruct (8 <? List.length data)%nat eqn:E.
  - apply Nat.ltb_lt in E.
    assert (H : (8 <? List.length (firstn 8 data))%nat = false).
    { apply Nat.ltb_ge. rewrite length_firstn. lia. }
    now rewrite H.
  - rewrite firstn_all2 by (apply Nat.ltb_ge in E; lia). now rewrite E.
Qed.

Lemma uint32_lt (n : N) : is_uint32 (uint32 n).
Proof. unfold is_uint32, uint32. apply N.mod_lt. discriminate. Qed.

Lemma ParseID_uint32 (data : bytes) : is_uint32 (ParseID data).
Proof.
  unfold ParseID. destruct (strconv.ParseUint16_32 _). apply uint32_lt.
Qed.

(** C8, amended.  [ParseID] looks at the first eight bytes of its input
    only and decodes them: when they are hexadecimal digits, one at least,
    the result is the number that they denote, whatever follows them; when
    they are not (they are empty or hold a byte that is no hexadecimal
    digit) the result is the zero [SessionID].  There is no error result,
    every input gives a 32-bit value. *)
Theorem ParseID_lenient (data : bytes) :
  ParseID data = ParseID (firstn 8 data)
  /\ (hex_text (firstn 8 data) = true -> ParseID data = hexval (firstn 8 data) 0)
  /\ (hex_text (firstn 8 data) = false -> ParseID data = 0)
  /\ is_uint32 (ParseID data).
Proof.
  split; [apply ParseID_firstn|].
  assert (H8 : ParseID data
               = if hex_text (firstn 8 data) then hexval (firstn 8 data) 0 else 0).
  { rewrite ParseID_firstn. apply ParseID_short. rewrite length_firstn. lia. }
  split; [|split; [|apply ParseID_uint32]]; intros H; now rewrite H8, H.
Qed.

Lemma ParseID_lenient_witness :
  ParseID (B "0000000Bzz") = 11
  /\ ParseID (B "12x45678ffff") = 0.
Proof.
  destruct (ParseID_lenient (B "0000000Bzz")) as (_ & H1 & _ & _).
  destruct (ParseID_lenient (B "12x45678ffff")) as (_ & _ & H2 & _).
  split; [exact (H1 eq_refl)|exact (H2 eq_refl)].
Defined.

(** C8 as stated fails: an input that is no hexadecimal text, and that
    [hex.DecodeString] refuses, but whose first eight bytes are
    hexadecimal digits is read as their number, not as zero. *)
Lemma ParseID_lenient_counterexample :
  hex_text (B "0000000Bzz") = false
  /\ hex.DecodeString (B "0000000Bzz") = Err (HexError (InvalidByteError x7a))
  /\ ParseID (B "0000000Bzz") = 11
  /\ ParseID (B "0000000Bzz") <> 0.
Proof.
  split; [reflexivity|]. split; [reflexivity|]. split; [reflexivity|].
  discriminate.
Qed.

(** C9.  The device-native air quality 3 is the level "2". *)
Theorem AirQuality_3_is_level_2 : AirQuality_ToHemtjanst 3%Z = "2"%string.
Proof. reflexivity. Qed.

Lemma udigit_spec (d : N) :
  d < 16 ->
  strconv.digit_val (fmt.udigit d) = Some d
  /\ is_upper_hex_digit (fmt.udigit d) = true.
Proof.
  intros H. assert (Hn : (N.to_nat d < 16)%nat) by lia.
  rewrite <- (N2Nat.id d). clear H. revert Hn. generalize (N.to_nat d).
  intros n Hn. do 16 (destruct n as [|n]; [now vm_compute|]). lia.
Qed.

(** The digit loop writes [k] digits in front of [acc], [k] being the
    number of hexadecimal digits of [u], and they denote [u]. *)
Lemma digits_loop_spec (fuel : nat) : forall u acc,
  u < 16 ^ N.of_nat fuel -> (1 <= fuel)%nat ->
  exists ds,
    fmt.digits_loop fuel u acc = ds ++ acc
    /\ (1 <= List.length ds <= fuel)%nat
    /\ (List.length ds = 1%nat \/ 16 ^ N.of_nat (List.length ds - 1) <= u)
    /\ forallb is_upper_hex_digit ds = true
    /\ forall n, hexval ds n = n * 16 ^ N.of_nat (List.length ds) + u.
Proof.
  induction fuel as [|fuel IH]; intros u acc Hu Hf; [lia|].
  cbn [fmt.digits_loop]. destruct (u <? 16) eqn:E.
  - apply N.ltb_lt in E. destruct (udigit_spec u E) as [Hv Hup].
    exists [fmt.udigit u]. cbn [List.length].
    split; [reflexivity|]. split; [lia|]. split; [now left|]. split.
    + cbn [forallb]. now rewrite Hup.
    + intros n. unfold hexval. cbn [fold_left]. rewrite Hv. cbn. lia.
  - apply N.ltb_ge in E.
    rewrite Nat2N.inj_succ, N.pow_succ_r' in Hu.
    rewrite N.shiftr_div_pow2. change (2 ^ 4) with 16.
    change 15 with (N.ones 4). rewrite N.land_ones. change (2 ^ 4) with 16.
    assert (Hq : u / 16 < 16 ^ N.of_nat fuel).
    { apply N.Div0.div_lt_upper_bound; lia. }
    assert (Hf' : (1 <= fuel)%nat).
    { destruct fuel; [|lia]. cbn in Hu. lia. }
    destruct (IH (u / 16) (fmt.udigit (u mod 16) :: acc) Hq Hf')
      as (ds & Heq & Hlen & Hmin & Hup & Hval).
    assert (Hr : u mod 16 < 16) by (apply N.mod_lt; discriminate).
    destruct (udigit_spec _ Hr) as [Hv Hup'].
    exists (ds ++ [fmt.udigit (u mod 16)]).
    rewrite <- app_assoc. cbn [app]. split; [exact Heq|].
    rewrite length_app. cbn [List.length].
    pose proof (N.div_mod u 16 ltac:(discriminate)) as Hdm.
    split; [lia|]. split; [|split].
    + right. replace (List.length ds + 1 - 1)%nat with (S (List.length ds - 1)) by lia.
      rewrite Nat2N.inj_succ, N.pow_succ_r'.
      destruct Hmin as [H1|Hge].
      * rewrite H1. change (16 * 16 ^ N.of_nat (1 - 1)) with 16. exact E.
      * revert Hge Hdm. generalize (16 ^ N.of_nat (List.length ds - 1)), (u / 16), (u mod 16).
        intros; lia.
    + rewrite forallb_app, Hup. cbn [forallb andb]. now rewrite Hup'.
    + intros n. unfold hexval in *. rewrite fold_left_app. cbn [fold_left].
      rewrite Hval, Hv.
      replace (List.length ds + 1)%nat with (S (List.length ds)) by lia.
      rewrite Nat2N.inj_succ, N.pow_succ_r'. lia.
Qed.

Lemma hexval_zeros (k : nat) (s : bytes) :
  hexval (repeat x30 k ++ s) 0 = hexval s 0.
Proof.
  induction k as [|k IH]; [reflexivity|].
  cbn [repeat app]. unfold hexval in *. cbn [fold_left]. exact IH.
Qed.

(** The canonical text of a 32-bit value: eight upper-case hexadecimal
    digits that denote it. *)
Lemma Hex_spec (s : SessionID) :
  is_uint32 s ->
  List.length (Hex s) = 8%nat
  /\ forallb is_upper_hex_digit (Hex s) = true
  /\ hexval (Hex s) 0 = s.
Proof.
  unfold is_uint32. intros Hs. unfold Hex, fmt.Sprintf_08X.
  destruct (digits_loop_spec 16 s [] ) as (ds & Heq & Hlen & Hmin & Hup & Hval).
  { change (16 ^ N.of_nat 16) with (2 ^ 64).
    eapply N.lt_trans; [exact Hs|]. reflexivity. }
  { lia. }
  rewrite Heq, app_nil_r.
  assert (Hk : (List.length ds <= 8)%nat).
  { destruct Hmin as [H1|Hge]; [lia|].
    destruct (Nat.le_gt_cases (List.length ds) 8) as [|Hgt]; [assumption|].
    assert (16 ^ 8 <= 16 ^ N.of_nat (List.length ds - 1)).
    { apply N.pow_le_mono_r; lia. }
    change (16 ^ 8) with (2 ^ 32) in *. lia. }
  split; [|split].
  - rewrite length_app, repeat_length. lia.
  - rewrite forallb_app, Hup, andb_true_r.
    apply forallb_forall. intros c Hc. apply repeat_spec in Hc. now subst c.
  - rewrite hexval_zeros, Hval. lia.
Qed.

Lemma ParseID_Hex_id (s : SessionID) : is_uint32 s -> ParseID (Hex s) = s.
Proof.
  intros Hs. destruct (Hex_spec s Hs) as (Hlen & Hup & Hval).
  rewrite ParseID_short by lia.
  unfold hex_text. rewrite Hlen. cbn [Nat.eqb negb andb].
  assert (Hh : forallb is_hex_digit (Hex s) = true).
  { rewrite forallb_forall in *. intros c Hc. now apply is_upper_hex_is_hex, Hup. }
  now rewrite Hh.
Qed.

(** C10.  Parsing the canonical text of a [SessionID] gives it back; the
    text is made of exactly eight upper-case hexadecimal digits. *)
Theorem ParseID_Hex (s : SessionID) :
  is_uint32 s ->
  ParseID (Hex s) = s
  /\ List.length (Hex s) = 8%nat
  /\ forallb is_upper_hex_digit (Hex s) = true.
Proof.
  intros Hs. destruct (Hex_spec s Hs) as (Hlen & Hup & _).
  split; [now apply ParseID_Hex_id|now split].
Qed.

Lemma ParseID_Hex_witness :
  ParseID (Hex 3735928559) = 3735928559
  /\ List.length (Hex 3735928559) = 8%nat
  /\ forallb is_upper_hex_digit (Hex 3735928559) = true.
Proof. apply (ParseID_Hex 3735928559). reflexivity. Defined.

(* ================================================================= *)
(** ** encoding/hex *)

Lemma length_EncodeToString (s : bytes) :
  List.length (hex.EncodeToString s) = (2 * List.length s)%nat.
Proof. induction s as [|v s IH]; cbn [hex.EncodeToString List.length]; lia. Qed.

Lemma length_ToUpper (s : bytes) : List.length (strings.ToUpper s) = List.length s.
Proof. apply length_map. Qed.

Lemma upper_hex_pair (v : byte) :
  strings.upper (hex.digit (N.shiftr (u8 v) 4)) = fmt.udigit (u8 v / 16)
  /\ strings.upper (hex.digit (N.land (u8 v) 15)) = fmt.udigit (u8 v mod 16).
Proof. destruct v; split; reflexivity. Qed.

(** [strings.ToUpper(hex.EncodeToString(s))] is the upper-case text of [s]. *)
Lemma ToUpper_EncodeToString (s : bytes) :
  strings.ToUpper (hex.EncodeToString s) = upper_hex s.
Proof.
  induction s as [|v s IH]; [reflexivity|].
  cbn [hex.EncodeToString strings.ToUpper map upper_hex flat_map app].
  destruct (upper_hex_pair v) as [-> ->]. f_equal. f_equal. exact IH.
Qed.

Lemma length_upper_hex (s : bytes) : List.length (upper_hex s) = (2 * List.length s)%nat.
Proof. rewrite <- ToUpper_EncodeToString, length_ToUpper. apply length_EncodeToString. Qed.

Lemma upper_hex_app (a b : bytes) : upper_hex (a ++ b) = upper_hex a ++ upper_hex b.
Proof. apply flat_map_app. Qed.

Lemma udigit_pair (v : byte) :
  hex.fromHexChar (fmt.udigit (u8 v / 16)) = Some (u8 v / 16)
  /\ hex.fromHexChar (fmt.udigit (u8 v mod 16)) = Some (u8 v mod 16)
  /\ byte_of (N.lor (N.shiftl (u8 v / 16) 4) (u8 v mod 16)) = v
  /\ is_upper_hex_digit (fmt.udigit (u8 v / 16)) = true
  /\ is_upper_hex_digit (fmt.udigit (u8 v mod 16)) = true.
Proof. destruct v; repeat split; reflexivity. Qed.

Lemma upper_hex_digits (s : bytes) : forallb is_upper_hex_digit (upper_hex s) = true.
Proof.
  induction s as [|v s IH]; [reflexivity|].
  cbn [upper_hex flat_map app forallb].
  destruct (udigit_pair v) as (_ & _ & _ & -> & ->). exact IH.
Qed.

Lemma DecodeString_cons2 (p q : byte) (rest : bytes) :
  hex.DecodeString (p :: q :: rest) =
    match hex.fromHexChar p, hex.fromHexChar q with
    | None, _ => Err (HexError (InvalidByteError p))
    | Some _, None => Err (HexError (InvalidByteError q))
    | Some a, Some b =>
        match hex.DecodeString rest with
        | Ok out => Ok (byte_of (N.lor (N.shiftl a 4) b) :: out)
        | other => other
        end
    end.
Proof. reflexivity. Qed.

(** Induction over a list two items at a time. *)
Lemma pair_ind {A} (P : list A -> Prop) :
  P [] -> (forall a, P [a]) -> (forall a b l, P l -> P (a :: b :: l)) ->
  forall l, P l.
Proof.
  intros H0 H1 H2.
  assert (H : forall l, P l /\ forall a, P (a :: l)).
  { induction l as [|x l [IHl IHl']]; split; auto. }
  intros l. apply H.
Qed.

(** Decoding the text of [a] followed by [rest] gives [a] followed by what
    [rest] decodes to. *)
Lemma DecodeString_upper_hex_app (a rest : bytes) :
  hex.DecodeString (upper_hex a ++ rest) =
    match hex.DecodeString rest with
    | Ok out => Ok (a ++ out)
    | other => other
    end.
Proof.
  induction a as [|v a IH].
  - cbn [upper_hex flat_map app]. now destruct (hex.DecodeString rest).
  - cbn [upper_hex flat_map app]. rewrite DecodeString_cons2.
    destruct (udigit_pair v) as (-> & -> & Hv & _).
    fold (upper_hex a). rewrite IH, Hv.
    now destruct (hex.DecodeString rest).
Qed.

Lemma DecodeString_upper_hex (a : bytes) : hex.DecodeString (upper_hex a) = Ok a.
Proof.
  rewrite <- (app_nil_r (upper_hex a)), DecodeString_upper_hex_app.
  cbn. now rewrite app_nil_r.
Qed.

Lemma is_hex_digit_fromHexChar (c : byte) :
  is_hex_digit c = true -> exists a, hex.fromHexChar c = Some a.
Proof. intros H. destruct c; try discriminate H; vm_compute; eauto. Qed.

Lemma length_hex_bytes (s : bytes) :
  forallb is_hex_digit s = true ->
  List.length (hex_bytes s) = Nat.div2 (List.length s).
Proof.
  induction s as [| a | p q s IH] using pair_ind; intros H; [reflexivity..|].
  cbn [forallb] in H. apply andb_true_iff in H as [Hp H].
  apply andb_true_iff in H as [Hq H].
  destruct (is_hex_digit_fromHexChar p Hp) as [a Ha].
  destruct (is_hex_digit_fromHexChar q Hq) as [b Hb].
  cbn [hex_bytes List.length Nat.div2]. rewrite Ha, Hb. cbn [List.length].
  now rewrite IH.
Qed.

(** A text of hexadecimal digits decodes to the bytes it denotes when its
    length is even, and is refused for its length otherwise. *)
Lemma DecodeString_hex (s : bytes) :
  forallb is_hex_digit s = true ->
  hex.DecodeString s =
    if Nat.even (List.length s) then Ok (hex_bytes s) else Err (HexError ErrLength).
Proof.
  induction s as [| a | p q s IH] using pair_ind; intros H.
  - reflexivity.
  - cbn [forallb] in H. apply andb_true_iff in H as [Ha _].
    destruct (is_hex_digit_fromHexChar a Ha) as [x Hx].
    cbn [hex.DecodeString]. now rewrite Hx.
  - cbn [forallb] in H. apply andb_true_iff in H as [Hp H].
    apply andb_true_iff in H as [Hq H].
    destruct (is_hex_digit_fromHexChar p Hp) as [a Ha].
    destruct (is_hex_digit_fromHexChar q Hq) as [b Hb].
    rewrite DecodeString_cons2. cbn [hex_bytes List.length Nat.even].
    rewrite Ha, Hb, (IH H). now destruct (Nat.even (List.length s)).
Qed.

(** Two frames that differ in a tail of hexadecimal digits of the same
    even length are refused for the same reason, or decode to byte strings
    that differ in the bytes of that tail only. *)
Lemma DecodeString_tail (suf1 suf2 : bytes) :
  List.length suf1 = List.length suf2 ->
  Nat.even (List.length suf1) = true ->
  forallb is_hex_digit suf1 = true ->
  forallb is_hex_digit suf2 = true ->
  forall pre,
    (exists e, hex.DecodeString (pre ++ suf1) = Err e
               /\ hex.DecodeString (pre ++ suf2) = Err e)
    \/ (exists dp,
          List.length pre = (2 * List.length dp)%nat
          /\ hex.DecodeString (pre ++ suf1) = Ok (dp ++ hex_bytes suf1)
          /\ hex.DecodeString (pre ++ suf2) = Ok (dp ++ hex_bytes suf2)).
Proof.
  intros Hlen Hev H1 H2 pre.
  induction pre as [| a | p q pre IH] using pair_ind.
  - right. exists []. cbn [app].
    rewrite (DecodeString_hex _ H1), (DecodeString_hex _ H2), <- Hlen, Hev.
    now repeat split.
  - left. cbn [app].
    destruct suf1 as [|q1 s1], suf2 as [|q2 s2]; try discriminate Hlen.
    + cbn [hex.DecodeString]. destruct (hex.fromHexChar a); eexists; split; reflexivity.
    + cbn [forallb] in H1, H2. apply andb_true_iff in H1 as [Hq1 H1].
      apply andb_true_iff in H2 as [Hq2 H2].
      destruct (is_hex_digit_fromHexChar q1 Hq1) as [b1 Hb1].
      destruct (is_hex_digit_fromHexChar q2 Hq2) as [b2 Hb2].
      rewrite !DecodeString_cons2, Hb1, Hb2.
      destruct (hex.fromHexChar a); [|eexists; split; reflexivity].
      rewrite (DecodeString_hex _ H1), (DecodeString_hex _ H2).
      cbn [List.length] in Hlen, Hev. injection Hlen as Hlen. rewrite <- Hlen.
      rewrite Nat.even_succ, <- Nat.negb_even in Hev.
      apply negb_true_iff in Hev. rewrite Hev.
      eexists; split; reflexivity.
  - cbn [app]. rewrite !DecodeString_cons2.
    destruct (hex.fromHexChar p) as [a|]; [|left; eexists; split; reflexivity].
    destruct (hex.fromHexChar q) as [b|]; [|left; eexists; split; reflexivity].
    destruct IH as [(e & E1 & E2) | (dp & Hp & E1 & E2)].
    + left. exists e. now rewrite E1, E2.
    + right. exists (byte_of (N.lor (N.shiftl a 4) b) :: dp).
      rewrite E1, E2. cbn [List.length app]. repeat split; lia.
Qed.

(* ================================================================= *)
(** ** The padding *)

Lemma pad_byte_test (c : byte) :
  (u8 c <? 1) || (16 <? u8 c) = negb (pad_byte c).
Proof.
  unfold pad_byte. now rewrite negb_andb, !N.ltb_antisym.
Qed.

Lemma strip_loop_pads (pads rest : bytes) :
  forallb pad_byte pads = true -> strip_loop (pads ++ rest) = strip_loop rest.
Proof.
  induction pads as [|c pads IH]; intros H; [reflexivity|].
  cbn [forallb] in H. apply andb_true_iff in H as [Hc H].
  cbn [app strip_loop]. rewrite pad_byte_test, Hc. cbn [negb]. now apply IH.
Qed.

(** Trailing bytes in the range 1..16 are all removed. *)
Lemma strip_padding_pads (out pads : bytes) :
  forallb pad_byte pads = true -> strip_padding (out ++ pads) = strip_padding out.
Proof.
  intros H. unfold strip_padding. rewrite rev_app_distr, strip_loop_pads; [reflexivity|].
  rewrite forallb_forall in *. intros c Hc. apply H. now apply in_rev.
Qed.

(** An output that does not end in such a byte is kept as it is. *)
Lemma strip_padding_keep (out : bytes) (c : byte) :
  pad_byte c = false -> strip_padding (out ++ [c]) = out ++ [c].
Proof.
  intros H. unfold strip_padding. rewrite rev_app_distr. cbn [rev app strip_loop].
  rewrite pad_byte_test, H. cbn [negb].
  change (c :: rev out) with (rev [c] ++ rev out).
  now rewrite <- rev_app_distr, rev_involutive.
Qed.

Lemma forallb_repeat {A} (f : A -> bool) (a : A) (n : nat) :
  f a = true -> forallb f (repeat a n) = true.
Proof. intros H. induction n; cbn; [reflexivity|now rewrite H]. Qed.

(** C6.  After a plaintext of a multiple of 16 bytes, a further block of
    sixteen bytes 0x10 does not change what the padding-stripping step of
    the decoder returns. *)
Theorem strip_padding_spurious_block (plaintext : bytes) :
  Nat.modulo (List.length plaintext) 16 = 0%nat ->
  strip_padding (plaintext ++ repeat x10 16) = strip_padding plaintext.
Proof. intros _. apply strip_padding_pads. reflexivity. Qed.

Lemma strip_padding_spurious_block_witness :
  strip_padding (B "0123456789abcdef" ++ repeat x10 16)
  = strip_padding (B "0123456789abcdef").
Proof. apply (strip_padding_spurious_block (B "0123456789abcdef")). reflexivity. Defined.

(* ================================================================= *)
(** ** CBC mode *)

Lemma bxor_involutive (a b : byte) : subtle.bxor (subtle.bxor a b) b = a.
Proof.
  apply Byte.byte_dec_bl.
  apply (for_all_bytes2 (fun a b => Byte.eqb (subtle.bxor (subtle.bxor a b) b) a)).
  vm_compute. reflexivity.
Qed.

Lemma length_XORBytes (x y : bytes) :
  List.length (subtle.XORBytes x y) = Nat.min (List.length x) (List.length y).
Proof. unfold subtle.XORBytes. now rewrite length_map, length_combine. Qed.

Lemma XORBytes_involutive (x : bytes) : forall y,
  (List.length x <= List.length y)%nat ->
  subtle.XORBytes (subtle.XORBytes x y) y = x.
Proof.
  unfold subtle.XORBytes.
  induction x as [|a x IH]; intros [|b y] H; cbn [List.length] in H; try reflexivity; [lia|].
  cbn [combine map fst snd]. rewrite bxor_involutive. f_equal. apply IH. lia.
Qed.

Section CBC_theory.

Variables E D : bytes -> bytes.
Hypothesis E_length : forall b, List.length b = 16%nat -> List.length (E b) = 16%nat.
Hypothesis D_E : forall b, List.length b = 16%nat -> D (E b) = b.

Lemma length_encrypt_loop (n : nat) : forall iv src,
  List.length iv = 16%nat -> List.length src = (16 * n)%nat ->
  List.length (cipher.encrypt_loop E n iv src) = List.length src.
Proof.
  induction n as [|n IH]; intros iv src Hiv Hsrc; cbn [cipher.encrypt_loop].
  - cbn in *. lia.
  - unfold cipher.BlockSize.
    assert (Hx : List.length (subtle.XORBytes (firstn 16 src) iv) = 16%nat).
    { rewrite length_XORBytes, length_firstn. lia. }
    rewrite length_app, E_length by exact Hx.
    rewrite IH.
    + rewrite length_skipn. lia.
    + now apply E_length.
    + rewrite length_skipn. lia.
Qed.

(** Decryption in CBC mode undoes encryption in CBC mode. *)
Lemma decrypt_encrypt_loop (n : nat) : forall iv src,
  List.length iv = 16%nat -> List.length src = (16 * n)%nat ->
  cipher.decrypt_loop D n iv (cipher.encrypt_loop E n iv src) = src.
Proof.
  induction n as [|n IH]; intros iv src Hiv Hsrc;
    cbn [cipher.encrypt_loop cipher.decrypt_loop].
  - destruct src; [reflexivity|discriminate].
  - unfold cipher.BlockSize.
    assert (Hx : List.length (subtle.XORBytes (firstn 16 src) iv) = 16%nat).
    { rewrite length_XORBytes, length_firstn. lia. }
    pose proof (E_length _ Hx) as Hc.
    rewrite firstn_app, Hc, Nat.sub_diag, firstn_O, app_nil_r.
    rewrite firstn_all2 by lia.
    rewrite skipn_app, Hc, Nat.sub_diag, skipn_O.
    rewrite (skipn_all2 (n := 16)) by lia. cbn [app].
    rewrite D_E by exact Hx.
    rewrite XORBytes_involutive by (rewrite length_firstn; lia).
    rewrite IH.
    + apply firstn_skipn.
    + exact Hc.
    + rewrite length_skipn. lia.
Qed.

End CBC_theory.

(* ================================================================= *)
(** ** The codec *)

Lemma DecodeString_Ok (s : bytes) : forall data,
  hex.DecodeString s = Ok data ->
  data = hex_bytes s /\ List.length s = (2 * List.length data)%nat.
Proof.
  induction s as [| a | p q s IH] using pair_ind; intros data H.
  - injection H as <-. now split.
  - cbn [hex.DecodeString] in H. destruct (hex.fromHexChar a); discriminate.
  - rewrite DecodeString_cons2 in H. cbn [hex_bytes].
    destruct (hex.fromHexChar p) as [a|]; [|discriminate].
    destruct (hex.fromHexChar q) as [b|]; [|discriminate].
    destruct (hex.DecodeString s) as [out| |]; try discriminate.
    injection H as <-. destruct (IH out eq_refl) as [-> Hlen].
    cbn [List.length]. split; [reflexivity|lia].
Qed.

Lemma DecodeString_no_panic (s : bytes) (m : string) : hex.DecodeString s <> Panic m.
Proof.
  induction s as [| a | p q s IH] using pair_ind.
  - discriminate.
  - cbn [hex.DecodeString]. destruct (hex.fromHexChar a); discriminate.
  - rewrite DecodeString_cons2.
    destruct (hex.fromHexChar p) as [a|]; [|discriminate].
    destruct (hex.fromHexChar q) as [b|]; [|discriminate].
    destruct (hex.DecodeString s) as [out| |]; try discriminate. exact IH.
Qed.

(** The first [k] bytes of a decoded text are what its first [2k] digits
    denote. *)
Lemma hex_bytes_firstn (s : bytes) : forall data k,
  hex.DecodeString s = Ok data ->
  firstn k data = hex_bytes (firstn (2 * k) s).
Proof.
  induction s as [| a | p q s IH] using pair_ind; intros data k H.
  - injection H as <-. now rewrite !firstn_nil.
  - cbn [hex.DecodeString] in H. destruct (hex.fromHexChar a); discriminate.
  - rewrite DecodeString_cons2 in H.
    destruct (hex.fromHexChar p) as [a|] eqn:Ha; [|discriminate].
    destruct (hex.fromHexChar q) as [b|] eqn:Hb; [|discriminate].
    destruct (hex.DecodeString s) as [out| |]; try discriminate.
    injection H as <-. destruct k as [|k]; [reflexivity|].
    replace (2 * S k)%nat with (S (S (2 * k))) by lia.
    cbn [firstn hex_bytes]. rewrite Ha, Hb. f_equal. now apply IH.
Qed.

(** Decoding a text of an even number of hexadecimal digits followed by
    [rest] gives the bytes of the text followed by what [rest] decodes
    to. *)
Lemma DecodeString_hex_app (t rest : bytes) :
  forallb is_hex_digit t = true -> Nat.even (List.length t) = true ->
  hex.DecodeString (t ++ rest) =
    match hex.DecodeString rest with
    | Ok out => Ok (hex_bytes t ++ out)
    | other => other
    end.
Proof.
  induction t as [| a | p q t IH] using pair_ind; intros H Hev.
  - cbn [app hex_bytes]. now destruct (hex.DecodeString rest).
  - discriminate Hev.
  - cbn [forallb] in H. apply andb_true_iff in H as [Hp H].
    apply andb_true_iff in H as [Hq H].
    destruct (is_hex_digit_fromHexChar p Hp) as [a Ha].
    destruct (is_hex_digit_fromHexChar q Hq) as [b Hb].
    cbn [app hex_bytes]. rewrite DecodeString_cons2, Ha, Hb, (IH H Hev).
    now destruct (hex.DecodeString rest).
Qed.

(** The padding of [EncodeMessage] fills the last block. *)
Lemma padded_length (len : nat) :
  let pad := Nat.modulo (16 - Nat.modulo len 16) 16 in
  (len + pad = 16 * Nat.div (len + pad) 16)%nat
  /\ (pad < 16)%nat
  /\ (Nat.modulo len 16 = 0%nat -> pad = 0%nat).
Proof.
  cbv zeta.
  pose proof (Nat.div_mod_eq len 16) as Hdm.
  pose proof (Nat.mod_upper_bound len 16 ltac:(discriminate)) as Hlt.
  remember (Nat.modulo len 16) as r eqn:Hr.
  assert (Hpad : Nat.modulo (16 - r) 16 = if (r =? 0)%nat then 0%nat else (16 - r)%nat).
  { destruct (Nat.eqb_spec r 0) as [->|Hne]; [reflexivity|].
    apply Nat.mod_small. lia. }
  rewrite Hpad. split; [|split].
  - set (pad := if (r =? 0)%nat then 0%nat else (16 - r)%nat).
    assert (Hm : Nat.modulo (len + pad) 16 = 0%nat).
    { unfold pad. destruct (Nat.eqb_spec r 0) as [Hz|Hne].
      - replace (len + 0)%nat with (Nat.div len 16 * 16)%nat by lia.
        apply Nat.Div0.mod_mul.
      - replace (len + (16 - r))%nat with ((Nat.div len 16 + 1) * 16)%nat by lia.
        apply Nat.Div0.mod_mul. }
    pose proof (Nat.div_mod_eq (len + pad) 16). lia.
  - destruct (Nat.eqb_spec r 0); lia.
  - intros ->. reflexivity.
Qed.

Lemma pad_byte_of_nat (pad : nat) :
  (1 <= pad <= 16)%nat -> pad_byte (byte_of (N.of_nat pad)) = true.
Proof.
  intros H. unfold pad_byte. rewrite u8_byte_of, N.mod_small by lia.
  apply andb_true_iff. split; apply N.leb_le; lia.
Qed.

Section Codec_theory.

Context {crypto : Crypto} {laws : CryptoLaws crypto}.

Lemma keyIV_eq (s : SessionID) :
  keyIV s = (upper_hex (firstn 8 (md5_Sum (magicWord ++ Hex s))),
             upper_hex (skipn 8 (md5_Sum (magicWord ++ Hex s)))).
Proof. unfold keyIV. now rewrite !ToUpper_EncodeToString. Qed.

Lemma keyIV_length (s : SessionID) :
  List.length (fst (keyIV s)) = 16%nat /\ List.length (snd (keyIV s)) = 16%nat.
Proof.
  rewrite keyIV_eq. cbn [fst snd].
  rewrite !length_upper_hex, length_firstn, length_skipn, md5_Sum_length.
  split; reflexivity.
Qed.

(** The key has sixteen bytes: [aes.NewCipher] accepts it. *)
Lemma NewCipher_key (s : SessionID) : aes_NewCipher (fst (keyIV s)) = Ok (fst (keyIV s)).
Proof.
  unfold aes_NewCipher. now rewrite (proj1 (keyIV_length s)).
Qed.

Lemma Encrypt_blocks (s : SessionID) (data : bytes) (n : nat) :
  List.length data = (16 * n)%nat ->
  Encrypt s data =
    Ok (cipher.encrypt_loop (aes_Encrypt (fst (keyIV s))) n (snd (keyIV s)) data).
Proof.
  intros Hlen. unfold Encrypt.
  pose proof (NewCipher_key s) as Hk. pose proof (keyIV_length s) as [_ Hiv].
  destruct (keyIV s) as [key iv]. cbn [fst snd] in *.
  rewrite Hk. cbn [bind]. unfold cipher.CBCEncrypt, cipher.BlockSize.
  rewrite Hiv, Hlen. cbn [Nat.eqb negb].
  rewrite Nat.mul_comm, Nat.Div0.mod_mul, Nat.div_mul by discriminate.
  reflexivity.
Qed.

Lemma Decrypt_blocks (s : SessionID) (data : bytes) (n : nat) :
  List.length data = (16 * n)%nat ->
  Decrypt s data =
    Ok (cipher.decrypt_loop (aes_Decrypt (fst (keyIV s))) n (snd (keyIV s)) data).
Proof.
  intros Hlen. unfold Decrypt.
  pose proof (NewCipher_key s) as Hk. pose proof (keyIV_length s) as [_ Hiv].
  destruct (keyIV s) as [key iv]. cbn [fst snd] in *.
  rewrite Hk. cbn [bind]. unfold cipher.CBCDecrypt, cipher.BlockSize.
  rewrite Hiv, Hlen. cbn [Nat.eqb negb].
  rewrite Nat.mul_comm, Nat.Div0.mod_mul, Nat.div_mul by discriminate.
  reflexivity.
Qed.

(** [SessionID.Decrypt] undoes [SessionID.Encrypt] on whole blocks. *)
Lemma Decrypt_Encrypt (s : SessionID) (data : bytes) (n : nat) :
  List.length data = (16 * n)%nat ->
  let ct := cipher.encrypt_loop (aes_Encrypt (fst (keyIV s))) n (snd (keyIV s)) data in
  Encrypt s data = Ok ct
  /\ List.length ct = List.length data
  /\ Decrypt s ct = Ok data.
Proof.
  intros Hlen ct. pose proof (keyIV_length s) as [Hkey Hiv].
  split; [exact (Encrypt_blocks s data n Hlen)|].
  assert (Hct : List.length ct = List.length data).
  { apply length_encrypt_loop; auto. intros b. now apply aes_Encrypt_length. }
  split; [exact Hct|].
  rewrite (Decrypt_blocks s _ n) by lia. f_equal.
  apply decrypt_encrypt_loop; auto.
  - intros b. now apply aes_Encrypt_length.
  - intros b. now apply aes_Decrypt_Encrypt.
Qed.

(** The frame that [EncodeMessage] builds. *)
Lemma EncodeMessage_frame (s : SessionID) (p : bytes) :
  p <> [] ->
  let pad := Nat.modulo (16 - Nat.modulo (List.length p) 16) 16 in
  let padded := p ++ repeat (byte_of (N.of_nat pad)) pad in
  let ct := cipher.encrypt_loop (aes_Encrypt (fst (keyIV s)))
              (Nat.div (List.length padded) 16) (snd (keyIV s)) padded in
  let text := Hex s ++ upper_hex ct in
  EncodeMessage s p = Ok (text ++ upper_hex (sha256_Sum256 text)).
Proof.
  intros Hp. cbv zeta. unfold EncodeMessage.
  destruct p as [|c p]; [contradiction|]. cbn [List.length Nat.eqb].
  set (len := S (List.length p)).
  set (pad := Nat.modulo (16 - Nat.modulo len 16) 16).
  set (padded := (c :: p) ++ repeat (byte_of (N.of_nat pad)) pad).
  assert (Hlen : List.length padded = (16 * Nat.div (List.length padded) 16)%nat).
  { assert (Hl0 : List.length padded = (len + pad)%nat)
      by (unfold padded; now rewrite length_app, repeat_length).
    rewrite Hl0. exact (proj1 (padded_length len)). }
  rewrite (Encrypt_blocks s padded _ Hlen). cbn [wrapped bind].
  now rewrite !ToUpper_EncodeToString.
Qed.

(** [DecodeMessage], step by step. *)
Lemma DecodeMessage_eq (msg : bytes) :
  DecodeMessage msg =
    match hex.DecodeString msg with
    | Ok data =>
        if (List.length data <? 36)%nat then Err (Errorf "too few bytes")
        else
          match Decrypt (ParseID (firstn 8 msg))
                        (firstn (List.length data - 36) (skipn 4 data)) with
          | Ok out => Ok (strip_padding out)
          | Err e => Err (Wrap "unable to decrypt" e)
          | Panic m => Panic m
          end
    | Err e => Err (Wrap "error decoding hex" e)
    | Panic m => Panic m
    end.
Proof.
  unfold DecodeMessage. rewrite <- ParseID_firstn.
  destruct (hex.DecodeString msg) as [data| |]; cbn [wrapped bind]; try reflexivity.
  unfold checksumLen. change (4 + 32)%nat with 36%nat.
  destruct (List.length data <? 36)%nat; [reflexivity|].
  rewrite length_skipn.
  replace (List.length data - 4 - 32)%nat with (List.length data - 36)%nat by lia.
  now destruct (Decrypt _ _).
Qed.

(** Decoding an encoded message gives the message without the bytes in
    the range 1..16 that it ends with. *)
Lemma DecodeMessage_EncodeMessage_strip (s : SessionID) (p : bytes) :
  is_uint32 s -> p <> [] ->
  exists frame, EncodeMessage s p = Ok frame
                /\ DecodeMessage frame = Ok (strip_padding p).
Proof.
  intros Hs Hp. eexists. split; [exact (EncodeMessage_frame s p Hp)|].
  cbv zeta.
  set (pad := Nat.modulo (16 - Nat.modulo (List.length p) 16) 16).
  set (padded := p ++ repeat (byte_of (N.of_nat pad)) pad).
  set (n := Nat.div (List.length padded) 16).
  set (ct := cipher.encrypt_loop _ n _ padded).
  set (sum := sha256_Sum256 _).
  destruct (Hex_spec s Hs) as (Hlen & Hup & _).
  assert (Hhex : forallb is_hex_digit (Hex s) = true).
  { rewrite forallb_forall in *. intros c Hc. now apply is_upper_hex_is_hex, Hup. }
  assert (Hpl : List.length padded = (16 * n)%nat).
  { assert (Hl0 : List.length padded = (List.length p + pad)%nat)
      by (unfold padded; now rewrite length_app, repeat_length).
    unfold n. rewrite Hl0. exact (proj1 (padded_length (List.length p))). }
  destruct (Decrypt_Encrypt s padded n Hpl) as (_ & Hctl & Hdec).
  fold ct in Hctl, Hdec.
  rewrite DecodeMessage_eq.
  rewrite <- !app_assoc.
  rewrite firstn_app, Hlen, Nat.sub_diag, firstn_O, app_nil_r, firstn_all2 by lia.
  rewrite DecodeString_hex_app by (rewrite ?Hlen; auto).
  rewrite DecodeString_upper_hex_app, DecodeString_upper_hex.
  assert (H4 : List.length (hex_bytes (Hex s)) = 4%nat).
  { rewrite length_hex_bytes, Hlen by exact Hhex. reflexivity. }
  assert (Hsum : List.length sum = 32%nat) by apply sha256_Sum256_length.
  rewrite !length_app, H4, Hsum.
  destruct (4 + (List.length ct + 32) <? 36)%nat eqn:E; [apply Nat.ltb_lt in E; lia|].
  rewrite skipn_app, H4, Nat.sub_diag, skipn_O, skipn_all2, app_nil_l by lia.
  replace (4 + (List.length ct + 32) - 36)%nat with (List.length ct) by lia.
  rewrite firstn_app, Nat.sub_diag, firstn_O, app_nil_r, firstn_all.
  rewrite (ParseID_Hex_id s Hs), Hdec.
  f_equal. unfold padded. apply strip_padding_pads.
  destruct pad as [|k] eqn:Hk; [reflexivity|].
  apply forallb_repeat, pad_byte_of_nat.
  pose proof (padded_length (List.length p)) as (_ & Hlt & _). fold pad in Hlt. lia.
Qed.

(** C1, amended.  For every plaintext of at least one byte whose last byte
    is outside the range 1..16, and every [SessionID], decoding the frame
    that encoding produces gives the plaintext back. *)
Theorem DecodeMessage_EncodeMessage (s : SessionID) (plaintext : bytes) :
  is_uint32 s ->
  (1 <= List.length plaintext)%nat ->
  pad_byte (last plaintext x00) = false ->
  exists frame, EncodeMessage s plaintext = Ok frame
                /\ DecodeMessage frame = Ok plaintext.
Proof.
  intros Hs Hlen Hlast.
  assert (Hp : plaintext <> []) by (destruct plaintext; [cbn in Hlen; lia|discriminate]).
  destruct (DecodeMessage_EncodeMessage_strip s plaintext Hs Hp) as (frame & He & Hd).
  exists frame. split; [exact He|]. rewrite Hd. f_equal.
  destruct (exists_last Hp) as (q & c & ->).
  rewrite last_last in Hlast. now apply strip_padding_keep.
Qed.

(** C3.  The key is the upper-case hexadecimal text of the first eight
    bytes of the MD5 digest of the 8-byte magic word followed by the
    8-character text of the session, the IV that of the last eight bytes
    of the same digest; both have sixteen characters. *)
Theorem keyIV_spec (s : SessionID) :
  is_uint32 s ->
  let digest := md5_Sum (magicWord ++ Hex s) in
  keyIV s = (upper_hex (firstn 8 digest), upper_hex (lastn 8 digest))
  /\ List.length magicWord = 8%nat
  /\ List.length (Hex s) = 8%nat
  /\ forallb is_upper_hex_digit (Hex s) = true
  /\ List.length (fst (keyIV s)) = 16%nat
  /\ List.length (snd (keyIV s)) = 16%nat.
Proof.
  intros Hs. cbv zeta. destruct (Hex_spec s Hs) as (Hlen & Hup & _).
  pose proof (keyIV_length s) as [Hk Hiv].
  repeat split; try assumption.
  rewrite keyIV_eq. unfold lastn. now rewrite md5_Sum_length.
Qed.

(** C4.  [EncodeMessage] fails with "too few bytes" exactly on the empty
    plaintext.  Otherwise [pad = (16 - len mod 16) mod 16] bytes of value
    [pad] are appended (none when the length is a multiple of 16), the
    padded plaintext is encrypted in CBC mode with the key and IV of the
    session, and the frame is the text of the session, the upper-case
    hexadecimal text of the ciphertext and that of the SHA-256 digest of
    the text so far; it is made of upper-case hexadecimal digits only. *)
Theorem EncodeMessage_spec (s : SessionID) (plaintext : bytes) :
  is_uint32 s ->
  (EncodeMessage s plaintext = Err (Errorf "too few bytes") <-> plaintext = [])
  /\ (plaintext <> [] ->
      let pad := Nat.modulo (16 - Nat.modulo (List.length plaintext) 16) 16 in
      let padded := plaintext ++ repeat (byte_of (N.of_nat pad)) pad in
      let ct := cipher.encrypt_loop (aes_Encrypt (fst (keyIV s)))
                  (Nat.div (List.length padded) 16) (snd (keyIV s)) padded in
      let text := Hex s ++ upper_hex ct in
      let frame := text ++ upper_hex (sha256_Sum256 text) in
      EncodeMessage s plaintext = Ok frame
      /\ (Nat.modulo (List.length plaintext) 16 = 0%nat -> padded = plaintext)
      /\ Nat.modulo (List.length padded) 16 = 0%nat
      /\ List.length ct = List.length padded
      /\ forallb is_upper_hex_digit frame = true).
Proof.
  intros Hs. split.
  - split.
    + intros H. destruct plaintext as [|c p]; [reflexivity|].
      rewrite EncodeMessage_frame in H by discriminate. discriminate H.
    + intros ->. reflexivity.
  - intros Hp. cbv zeta.
    pose proof (padded_length (List.length plaintext)) as (Hpl & Hlt & Hz).
    cbv zeta in Hpl, Hlt, Hz.
    set (pad := Nat.modulo (16 - Nat.modulo (List.length plaintext) 16) 16) in *.
    set (padded := plaintext ++ repeat (byte_of (N.of_nat pad)) pad).
    assert (Hlen : List.length padded
                   = (16 * Nat.div (List.length padded) 16)%nat).
    { assert (Hl0 : List.length padded = (List.length plaintext + pad)%nat)
        by (unfold padded; now rewrite length_app, repeat_length).
      rewrite Hl0. exact Hpl. }
    split; [exact (EncodeMessage_frame s plaintext Hp)|].
    split; [|split; [|split]].
    + intros H0. unfold padded. rewrite (Hz H0). cbn [repeat]. apply app_nil_r.
    + rewrite Hlen, Nat.mul_comm. apply Nat.Div0.mod_mul.
    + pose proof (keyIV_length s) as [_ Hiv].
      apply length_encrypt_loop; auto. intros b. apply aes_Encrypt_length.
      apply keyIV_length.
    + destruct (Hex_spec s Hs) as (_ & Hup & _).
      now rewrite !forallb_app, Hup, !upper_hex_digits.
Qed.

(** C5, amended.  [DecodeMessage] reads the session from the leading
    eight characters and hex-decodes the whole frame, these characters
    included.  A frame that is no hexadecimal text is refused, and so is
    one of fewer than 4 + 32 bytes.  Otherwise the first four bytes, which
    are the session prefix itself, and the last 32 bytes are dropped, and
    the bytes between them, when they are whole blocks, are decrypted with
    the key and IV of the session read and stripped of their padding. *)
Theorem DecodeMessage_spec (msg : bytes) :
  match hex.DecodeString msg with
  | Err e => DecodeMessage msg = Err (Wrap "error decoding hex" e)
  | Panic _ => False
  | Ok data =>
      if (List.length data <? 4 + 32)%nat then
        DecodeMessage msg = Err (Errorf "too few bytes")
      else
        let sess := ParseID (firstn 8 msg) in
        let body := firstn (List.length data - 36) (skipn 4 data) in
        data = hex_bytes (firstn 8 msg) ++ body ++ lastn 32 data
        /\ (Nat.modulo (List.length body) 16 = 0%nat ->
            DecodeMessage msg =
              Ok (strip_padding
                    (cipher.decrypt_loop (aes_Decrypt (fst (keyIV sess)))
                       (Nat.div (List.length body) 16) (snd (keyIV sess)) body)))
  end.
Proof.
  rewrite DecodeMessage_eq.
  destruct (hex.DecodeString msg) as [data|e|m] eqn:Hd; [|reflexivity|].
  2:{ exact (DecodeString_no_panic _ _ Hd). }
  change (4 + 32)%nat with 36%nat.
  destruct (List.length data <? 36)%nat eqn:E; [reflexivity|].
  apply Nat.ltb_ge in E. cbv zeta. split.
  - pose proof (hex_bytes_firstn msg data 4 Hd) as Hf.
    change (2 * 4)%nat with 8%nat in Hf. rewrite <- Hf.
    unfold lastn.
    rewrite <- (firstn_skipn 4 data) at 1. f_equal.
    rewrite <- (firstn_skipn (List.length data - 36) (skipn 4 data)) at 1. f_equal.
    rewrite skipn_skipn. f_equal. lia.
  - intros Hm.
    set (body := firstn (List.length data - 36) (skipn 4 data)) in *.
    assert (Hb : List.length body = (16 * Nat.div (List.length body) 16)%nat).
    { pose proof (Nat.div_mod_eq (List.length body) 16). lia. }
    now rewrite (Decrypt_blocks _ body _ Hb).
Qed.

End Codec_theory.

(** C7.  Two frames that are the same up to their last 64 characters, these
    being hexadecimal digits in both, give the same result: the integrity
    suffix has no part in what [DecodeMessage] returns. *)
Theorem DecodeMessage_ignores_checksum {crypto : Crypto} (pre suf1 suf2 : bytes) :
  List.length suf1 = 64%nat -> List.length suf2 = 64%nat ->
  forallb is_hex_digit suf1 = true ->
  forallb is_hex_digit suf2 = true ->
  DecodeMessage (pre ++ suf1) = DecodeMessage (pre ++ suf2).
Proof.
  intros L1 L2 H1 H2.
  assert (Hev : Nat.even (List.length suf1) = true) by now rewrite L1.
  assert (Hlen : List.length suf1 = List.length suf2) by congruence.
  rewrite !DecodeMessage_eq.
  destruct (DecodeString_tail suf1 suf2 Hlen Hev H1 H2 pre)
    as [(e & E1 & E2) | (dp & Hp & E1 & E2)]; rewrite E1, E2; [reflexivity|].
  assert (Hh : forall suf, List.length suf = 64%nat ->
             forallb is_hex_digit suf = true ->
             List.length (hex_bytes suf) = 32%nat).
  { intros suf L H. now rewrite length_hex_bytes, L. }
  rewrite !length_app, (Hh suf1 L1 H1), (Hh suf2 L2 H2).
  destruct (List.length dp + 32 <? 36)%nat eqn:E; [reflexivity|].
  apply Nat.ltb_ge in E.
  rewrite !firstn_app.
  replace (8 - List.length pre)%nat with 0%nat by lia.
  rewrite !skipn_app.
  replace (4 - List.length dp)%nat with 0%nat by lia.
  rewrite !skipn_O, !firstn_app, length_skipn.
  replace (List.length dp + 32 - 36 - (List.length dp - 4))%nat with 0%nat by lia.
  reflexivity.
Qed.

(* ================================================================= *)
(** ** The session counter of a device *)

Lemma Increment_iter (n : nat) (x : N) :
  Nat.iter n Increment (uint32 x) = uint32 (x + N.of_nat n).
Proof.
  induction n as [|n IH].
  - cbn. now rewrite N.add_0_r.
  - rewrite Nat.iter_succ, IH. unfold Increment, uint32.
    rewrite N.Div0.add_mod_idemp_l. f_equal. lia.
Qed.

(** The handshake sets the counter to the answer of the device plus one. *)
Lemma New_id {crypto : Crypto} (address : bytes) (sess : SessionID)
    (post : bytes -> result bytes) (rsp : bytes) :
  post (Hex sess) = Ok rsp ->
  New address (Ok tt) sess post = Ok (mkDevice address (uint32 (ParseID rsp + 1))).
Proof. intros H. unfold New. cbn [wrapped bind]. now rewrite H. Qed.

Section Device_theory.

Context {crypto : Crypto} {laws : CryptoLaws crypto} {json : JSON}.

(** A call that is posted and answered moves the counter by one, whatever
    the answer is and whatever [Set] returns. *)
Lemma Device_Set_answered (c : call) (d : Device) :
  answered c ->
  id (fst (Device_Set (fst c) (snd c) d)) = Increment (id d).
Proof.
  intros [(data & Hm & Hne) Hpost]. unfold Device_Set, dev_bind, dev_try, dev_get.
  rewrite Hm, (EncodeMessage_frame (id d) data Hne).
  match goal with |- context [snd c ?f] => destruct (Hpost f) as [resp ->] end.
  unfold id_Increment.
  destruct (json_Unmarshal resp) as [state| |]; try reflexivity.
  now destruct (negb _).
Qed.

(** A call whose post fails leaves the counter as it was. *)
Lemma Device_Set_post_failed (msg : Desired) (post : bytes -> result bytes)
    (d : Device) :
  (forall frame e, post frame <> Ok e) ->
  fst (Device_Set msg post d) = d.
Proof.
  intros Hpost. unfold Device_Set, dev_bind, dev_try, dev_get.
  destruct (json_Marshal msg) as [data| |]; try reflexivity.
  destruct (EncodeMessage (id d) data) as [frame| |]; try reflexivity.
  destruct (post frame) as [resp| |] eqn:E; try reflexivity.
  now destruct (Hpost frame resp).
Qed.

(** X28.  After [N] calls of [Set] that were posted and answered by the
    device, whether [Set] then returned an error or not, the counter is the
    one before the calls plus [N], modulo [2^32]. *)
Theorem Set_counter (calls : list call) (d : Device) :
  is_uint32 (id d) ->
  Forall answered calls ->
  id (after_calls calls d) = uint32 (id d + N.of_nat (List.length calls)).
Proof.
  intros Hd Hall.
  assert (H : id (after_calls calls d) = Nat.iter (List.length calls) Increment (id d)).
  { clear Hd. unfold after_calls. revert d.
    induction Hall as [|c calls Hc Hall IH]; intros d; [reflexivity|].
    cbn [fold_left List.length].
    now rewrite IH, (Device_Set_answered c d Hc), Nat.iter_succ_r. }
  rewrite H. rewrite <- (N.mod_small (id d) (2 ^ 32)) at 1 by exact Hd.
  apply Increment_iter.
Qed.

End Device_theory.

(* ================================================================= *)
(** ** The standard algorithms: sizes of the digests *)

Lemma length_le_bytes (n : nat) : forall x, List.length (word.le_bytes n x) = n.
Proof. induction n as [|n IH]; intros x; cbn [word.le_bytes List.length]; auto. Qed.

Lemma length_be_bytes (n : nat) (x : N) : List.length (word.be_bytes n x) = n.
Proof. unfold word.be_bytes. now rewrite length_rev, length_le_bytes. Qed.

Lemma md5_Sum_size (msg : bytes) : List.length (md5.Sum msg) = 16%nat.
Proof.
  unfold md5.Sum.
  destruct (fold_left md5.compress _ md5.init) as [[[a b] c] d].
  now rewrite !length_app, !length_le_bytes.
Qed.

Lemma sha256_round_length (W st : list N) (i : nat) :
  List.length st = 8%nat -> List.length (sha256.round W st i) = 8%nat.
Proof.
  intros H. do 9 (destruct st as [|? st]; try discriminate H). reflexivity.
Qed.

Lemma sha256_compress_length (st : list N) (block : bytes) :
  List.length st = 8%nat -> List.length (sha256.compress st block) = 8%nat.
Proof.
  intros H. unfold sha256.compress. rewrite length_map, length_combine, H.
  assert (Hr : forall l st', List.length st' = 8%nat ->
               List.length (fold_left (sha256.round (sha256.schedule block)) l st') = 8%nat).
  { induction l as [|i l IH]; intros st' H'; [exact H'|].
    cbn [fold_left]. apply IH. now apply sha256_round_length. }
  now rewrite Hr.
Qed.

Lemma length_concat_const {A} (m : nat) (ls : list (list A)) :
  Forall (fun l => List.length l = m) ls ->
  List.length (List.concat ls) = (m * List.length ls)%nat.
Proof.
  induction 1 as [|l ls Hl _ IH]; cbn [List.concat List.length]; [lia|].
  rewrite length_app, IH, Hl. lia.
Qed.

Lemma sha256_Sum256_size (msg : bytes) : List.length (sha256.Sum256 msg) = 32%nat.
Proof.
  unfold sha256.Sum256.
  assert (H : forall bl st, List.length st = 8%nat ->
              List.length (fold_left sha256.compress bl st) = 8%nat).
  { induction bl as [|b bl IH]; intros st Hst; [exact Hst|].
    cbn [fold_left]. apply IH. now apply sha256_compress_length. }
  rewrite (length_concat_const 4).
  - rewrite length_map, H; reflexivity.
  - apply Forall_forall. intros l Hl. apply in_map_iff in Hl as (x & <- & _).
    apply length_be_bytes.
Qed.

(* ================================================================= *)
(** ** The standard algorithms: AES decryption undoes AES encryption *)

(** A fact about all bytes, or all pairs of bytes, that a boolean test
    decides is settled by running the test. *)
Ltac by_all_bytes :=
  intros;
  apply Byte.byte_dec_bl;
  match goal with
  | |- Byte.eqb _ _ = true =>
      repeat match goal with b : byte |- _ => revert b end;
      first
        [ refine (for_all_bytes2 (fun a b => Byte.eqb _ _) _)
        | refine (for_all_bytes (fun a => Byte.eqb _ _) _) ];
      vm_compute; reflexivity
  end.

Lemma InvSubByte_SubByte (b : byte) : aes.InvSubByte (aes.SubByte b) = b.
Proof. by_all_bytes. Qed.

Lemma u8_bxor (a b : byte) : u8 (subtle.bxor a b) = N.lxor (u8 a) (u8 b).
Proof.
  apply N.eqb_eq. revert a b.
  refine (for_all_bytes2 (fun a b => u8 (subtle.bxor a b) =? N.lxor (u8 a) (u8 b)) _).
  vm_compute. reflexivity.
Qed.

Lemma u8_xor4 (a b c d : byte) :
  u8 (aes.xor4 a b c d) = N.lxor (N.lxor (N.lxor (u8 a) (u8 b)) (u8 c)) (u8 d).
Proof. unfold aes.xor4. now rewrite !u8_bxor. Qed.

(** A sum of four sums of four, read by columns. *)
Lemma xor4_transpose (a0 a1 a2 a3 b0 b1 b2 b3 c0 c1 c2 c3 d0 d1 d2 d3 : byte) :
  aes.xor4 (aes.xor4 a0 a1 a2 a3) (aes.xor4 b0 b1 b2 b3)
           (aes.xor4 c0 c1 c2 c3) (aes.xor4 d0 d1 d2 d3)
  = aes.xor4 (aes.xor4 a0 b0 c0 d0) (aes.xor4 a1 b1 c1 d1)
             (aes.xor4 a2 b2 c2 d2) (aes.xor4 a3 b3 c3 d3).
Proof.
  apply u8_inj. rewrite !u8_xor4. apply N.bits_inj. intros i.
  rewrite !N.lxor_spec. btauto.
Qed.

Lemma bxor_swap (p a q b : byte) :
  subtle.bxor (subtle.bxor p q) (subtle.bxor a b)
  = subtle.bxor (subtle.bxor p a) (subtle.bxor q b).
Proof.
  apply u8_inj. rewrite !u8_bxor. apply N.bits_inj. intros i.
  rewrite !N.lxor_spec. btauto.
Qed.

Lemma xtime_bxor (a b : byte) :
  aes.xtime (subtle.bxor a b) = subtle.bxor (aes.xtime a) (aes.xtime b).
Proof. by_all_bytes. Qed.

Lemma gmul_loop_bxor (n : nat) : forall a b k p q,
  aes.gmul_loop n (subtle.bxor a b) k (subtle.bxor p q)
  = subtle.bxor (aes.gmul_loop n a k p) (aes.gmul_loop n b k q).
Proof.
  induction n as [|n IH]; intros a b k p q; cbn [aes.gmul_loop]; [reflexivity|].
  rewrite xtime_bxor. destruct (N.odd k).
  - now rewrite bxor_swap, IH.
  - apply IH.
Qed.

(** Multiplication by a constant of the field distributes over sums. *)
Lemma gmul_bxor (k a b : byte) :
  aes.gmul k (subtle.bxor a b) = subtle.bxor (aes.gmul k a) (aes.gmul k b).
Proof.
  unfold aes.gmul. change x00 with (subtle.bxor x00 x00) at 1. apply gmul_loop_bxor.
Qed.

Lemma gmul_xor4 (k a b c d : byte) :
  aes.gmul k (aes.xor4 a b c d)
  = aes.xor4 (aes.gmul k a) (aes.gmul k b) (aes.gmul k c) (aes.gmul k d).
Proof. unfold aes.xor4. now rewrite !gmul_bxor. Qed.

(** The product of the matrix of [InvMixColumns] and that of [MixColumns],
    entry by entry: the identity. *)
Lemma inv_mix_row0 (a : byte) :
  aes.xor4 (aes.gmul x0e (aes.gmul x02 a)) (aes.gmul x0b a)
           (aes.gmul x0d a) (aes.gmul x09 (aes.gmul x03 a)) = a
  /\ aes.xor4 (aes.gmul x0e (aes.gmul x03 a)) (aes.gmul x0b (aes.gmul x02 a))
              (aes.gmul x0d a) (aes.gmul x09 a) = x00
  /\ aes.xor4 (aes.gmul x0e a) (aes.gmul x0b (aes.gmul x03 a))
              (aes.gmul x0d (aes.gmul x02 a)) (aes.gmul x09 a) = x00
  /\ aes.xor4 (aes.gmul x0e a) (aes.gmul x0b a)
              (aes.gmul x0d (aes.gmul x03 a)) (aes.gmul x09 (aes.gmul x02 a)) = x00.
Proof. repeat split; by_all_bytes. Qed.

Lemma inv_mix_row1 (a : byte) :
  aes.xor4 (aes.gmul x09 (aes.gmul x02 a)) (aes.gmul x0e a)
           (aes.gmul x0b a) (aes.gmul x0d (aes.gmul x03 a)) = x00
  /\ aes.xor4 (aes.gmul x09 (aes.gmul x03 a)) (aes.gmul x0e (aes.gmul x02 a))
              (aes.gmul x0b a) (aes.gmul x0d a) = a
  /\ aes.xor4 (aes.gmul x09 a) (aes.gmul x0e (aes.gmul x03 a))
              (aes.gmul x0b (aes.gmul x02 a)) (aes.gmul x0d a) = x00
  /\ aes.xor4 (aes.gmul x09 a) (aes.gmul x0e a)
              (aes.gmul x0b (aes.gmul x03 a)) (aes.gmul x0d (aes.gmul x02 a)) = x00.
Proof. repeat split; by_all_bytes. Qed.

Lemma inv_mix_row2 (a : byte) :
  aes.xor4 (aes.gmul x0d (aes.gmul x02 a)) (aes.gmul x09 a)
           (aes.gmul x0e a) (aes.gmul x0b (aes.gmul x03 a)) = x00
  /\ aes.xor4 (aes.gmul x0d (aes.gmul x03 a)) (aes.gmul x09 (aes.gmul x02 a))
              (aes.gmul x0e a) (aes.gmul x0b a) = x00
  /\ aes.xor4 (aes.gmul x0d a) (aes.gmul x09 (aes.gmul x03 a))
              (aes.gmul x0e (aes.gmul x02 a)) (aes.gmul x0b a) = a
  /\ aes.xor4 (aes.gmul x0d a) (aes.gmul x09 a)
              (aes.gmul x0e (aes.gmul x03 a)) (aes.gmul x0b (aes.gmul x02 a)) = x00.
Proof. repeat split; by_all_bytes. Qed.

Lemma inv_mix_row3 (a : byte) :
  aes.xor4 (aes.gmul x0b (aes.gmul x02 a)) (aes.gmul x0d a)
           (aes.gmul x09 a) (aes.gmul x0e (aes.gmul x03 a)) = x00
  /\ aes.xor4 (aes.gmul x0b (aes.gmul x03 a)) (aes.gmul x0d (aes.gmul x02 a))
              (aes.gmul x09 a) (aes.gmul x0e a) = x00
  /\ aes.xor4 (aes.gmul x0b a) (aes.gmul x0d (aes.gmul x03 a))
              (aes.gmul x09 (aes.gmul x02 a)) (aes.gmul x0e a) = x00
  /\ aes.xor4 (aes.gmul x0b a) (aes.gmul x0d a)
              (aes.gmul x09 (aes.gmul x03 a)) (aes.gmul x0e (aes.gmul x02 a)) = a.
Proof. repeat split; by_all_bytes. Qed.

Lemma xor4_unit (a : byte) :
  aes.xor4 a x00 x00 x00 = a /\ aes.xor4 x00 a x00 x00 = a
  /\ aes.xor4 x00 x00 a x00 = a /\ aes.xor4 x00 x00 x00 a = a.
Proof. repeat split; by_all_bytes. Qed.

(** [InvMixColumns] undoes [MixColumns] on a column. *)
Lemma inv_mix_mix (a0 a1 a2 a3 : byte) :
  match aes.mix a0 a1 a2 a3 with
  | [b0; b1; b2; b3] => aes.inv_mix b0 b1 b2 b3
  | _ => []
  end = [a0; a1; a2; a3].
Proof.
  unfold aes.mix, aes.inv_mix. rewrite !gmul_xor4.
  f_equal; [|f_equal; [|f_equal; [|f_equal]]]; rewrite xor4_transpose.
  - destruct (inv_mix_row0 a0) as (-> & _ & _ & _).
    destruct (inv_mix_row0 a1) as (_ & -> & _ & _).
    destruct (inv_mix_row0 a2) as (_ & _ & -> & _).
    destruct (inv_mix_row0 a3) as (_ & _ & _ & ->).
    apply xor4_unit.
  - destruct (inv_mix_row1 a0) as (-> & _ & _ & _).
    destruct (inv_mix_row1 a1) as (_ & -> & _ & _).
    destruct (inv_mix_row1 a2) as (_ & _ & -> & _).
    destruct (inv_mix_row1 a3) as (_ & _ & _ & ->).
    apply xor4_unit.
  - destruct (inv_mix_row2 a0) as (-> & _ & _ & _).
    destruct (inv_mix_row2 a1) as (_ & -> & _ & _).
    destruct (inv_mix_row2 a2) as (_ & _ & -> & _).
    destruct (inv_mix_row2 a3) as (_ & _ & _ & ->).
    apply xor4_unit.
  - destruct (inv_mix_row3 a0) as (-> & _ & _ & _).
    destruct (inv_mix_row3 a1) as (_ & -> & _ & _).
    destruct (inv_mix_row3 a2) as (_ & _ & -> & _).
    destruct (inv_mix_row3 a3) as (_ & _ & _ & ->).
    apply xor4_unit.
Qed.

Lemma InvSubBytes_SubBytes (st : bytes) : aes.InvSubBytes (aes.SubBytes st) = st.
Proof.
  unfold aes.InvSubBytes, aes.SubBytes. rewrite map_map.
  rewrite <- (map_id st) at 2. apply map_ext, InvSubByte_SubByte.
Qed.

Lemma length_SubBytes (st : bytes) : List.length (aes.SubBytes st) = List.length st.
Proof. apply length_map. Qed.

(** A state: a block of sixteen bytes. *)
Lemma state_cases (st : bytes) :
  List.length st = 16%nat ->
  exists s0 s1 s2 s3 s4 s5 s6 s7 s8 s9 s10 s11 s12 s13 s14 s15,
    st = [s0; s1; s2; s3; s4; s5; s6; s7; s8; s9; s10; s11; s12; s13; s14; s15].
Proof.
  intros H. do 16 (destruct st as [|? st]; [discriminate H|]).
  destruct st; [|discriminate H]. repeat eexists.
Qed.

Lemma InvShiftRows_ShiftRows (st : bytes) :
  List.length st = 16%nat ->
  aes.InvShiftRows (aes.ShiftRows st) = st /\ List.length (aes.ShiftRows st) = 16%nat.
Proof.
  intros H. destruct (state_cases st H)
    as (s0 & s1 & s2 & s3 & s4 & s5 & s6 & s7 & s8 & s9 & s10 & s11 & s12 & s13 & s14 & s15 & ->).
  split; reflexivity.
Qed.

Lemma InvMixColumns_MixColumns (st : bytes) :
  List.length st = 16%nat ->
  aes.InvMixColumns (aes.MixColumns st) = st /\ List.length (aes.MixColumns st) = 16%nat.
Proof.
  intros H. destruct (state_cases st H)
    as (s0 & s1 & s2 & s3 & s4 & s5 & s6 & s7 & s8 & s9 & s10 & s11 & s12 & s13 & s14 & s15 & ->).
  unfold aes.InvMixColumns, aes.MixColumns.
  pose proof (inv_mix_mix s0 s1 s2 s3) as H0.
  pose proof (inv_mix_mix s4 s5 s6 s7) as H1.
  pose proof (inv_mix_mix s8 s9 s10 s11) as H2.
  pose proof (inv_mix_mix s12 s13 s14 s15) as H3.
  cbn [aes.columns].
  unfold aes.mix in *. cbn [app aes.columns]. rewrite H0, H1, H2, H3.
  split; reflexivity.
Qed.

Lemma AddRoundKey_involutive (rk st : bytes) :
  List.length rk = 16%nat -> List.length st = 16%nat ->
  aes.AddRoundKey rk (aes.AddRoundKey rk st) = st
  /\ List.length (aes.AddRoundKey rk st) = 16%nat.
Proof.
  intros Hrk Hst. unfold aes.AddRoundKey. split.
  - apply XORBytes_involutive. lia.
  - rewrite length_XORBytes. lia.
Qed.

Lemma inv_round_round (rk st : bytes) :
  List.length rk = 16%nat -> List.length st = 16%nat ->
  aes.inv_round rk (aes.round rk st) = st /\ List.length (aes.round rk st) = 16%nat.
Proof.
  intros Hrk Hst. unfold aes.inv_round, aes.round.
  assert (H1 : List.length (aes.SubBytes st) = 16%nat) by now rewrite length_SubBytes.
  destruct (InvShiftRows_ShiftRows _ H1) as [E2 H2].
  destruct (InvMixColumns_MixColumns _ H2) as [E3 H3].
  destruct (AddRoundKey_involutive rk _ Hrk H3) as [E4 H4].
  split; [|exact H4].
  now rewrite E4, E3, E2, InvSubBytes_SubBytes.
Qed.

Lemma inv_final_round_final_round (rk st : bytes) :
  List.length rk = 16%nat -> List.length st = 16%nat ->
  aes.inv_final_round rk (aes.final_round rk st) = st
  /\ List.length (aes.final_round rk st) = 16%nat.
Proof.
  intros Hrk Hst. unfold aes.inv_final_round, aes.final_round.
  assert (H1 : List.length (aes.SubBytes st) = 16%nat) by now rewrite length_SubBytes.
  destruct (InvShiftRows_ShiftRows _ H1) as [E2 H2].
  destruct (AddRoundKey_involutive rk _ Hrk H2) as [E4 H4].
  split; [|exact H4].
  now rewrite E4, E2, InvSubBytes_SubBytes.
Qed.

Lemma inv_rounds_rounds (rks : list bytes) :
  Forall (fun rk => List.length rk = 16%nat) rks ->
  forall st, List.length st = 16%nat ->
    aes.inv_rounds rks (aes.rounds rks st) = st
    /\ List.length (aes.rounds rks st) = 16%nat.
Proof.
  induction 1 as [|rk rks Hrk Hall IH]; intros st Hst; [now split|].
  destruct rks as [|rk' rks'].
  - cbn [aes.rounds aes.inv_rounds]. now apply inv_final_round_final_round.
  - change (aes.rounds (rk :: rk' :: rks') st)
      with (aes.rounds (rk' :: rks') (aes.round rk st)).
    change (aes.inv_rounds (rk :: rk' :: rks') ?x)
      with (aes.inv_round rk (aes.inv_rounds (rk' :: rks') x)).
    destruct (inv_round_round rk st Hrk Hst) as [E1 H1].
    destruct (IH _ H1) as [E2 H2].
    split; [|exact H2]. now rewrite E2, E1.
Qed.

(** The inverse cipher undoes the cipher, under any round keys of sixteen
    bytes. *)
Lemma InvCipher_Cipher (rks : list bytes) (block : bytes) :
  Forall (fun rk => List.length rk = 16%nat) rks ->
  List.length block = 16%nat ->
  aes.InvCipher rks (aes.Cipher rks block) = block
  /\ List.length (aes.Cipher rks block) = 16%nat.
Proof.
  intros Hall Hb. destruct Hall as [|rk0 rks Hrk0 Hall]; [now split|].
  unfold aes.InvCipher, aes.Cipher.
  destruct (AddRoundKey_involutive rk0 block Hrk0 Hb) as [E1 H1].
  destruct (inv_rounds_rounds rks Hall _ H1) as [E2 H2].
  split; [|exact H2]. now rewrite E2.
Qed.

(** *** The round keys *)

Lemma chunks_spec {A} (P : A -> Prop) (n k : nat) : forall l : list A,
  List.length l = (n * k)%nat -> Forall P l ->
  List.length (word.chunks n k l) = k
  /\ Forall (fun c => List.length c = n /\ Forall P c) (word.chunks n k l).
Proof.
  induction k as [|k IH]; intros l Hlen HP; cbn [word.chunks]; [now split|].
  destruct (IH (skipn n l)) as [Hk Hall].
  - rewrite length_skipn. lia.
  - rewrite <- (firstn_skipn n l) in HP. now apply Forall_app in HP.
  - cbn [List.length]. split; [now rewrite Hk|].
    constructor; [|exact Hall]. split.
    + rewrite length_firstn. lia.
    + rewrite <- (firstn_skipn n l) in HP. now apply Forall_app in HP.
Qed.

Lemma length_RotWord (w : bytes) : List.length (aes.RotWord w) = List.length w.
Proof. do 5 (destruct w as [|? w]; try reflexivity). Qed.

Lemma expand_spec (n Nk : nat) : forall i rc w,
  (1 <= Nk <= i)%nat -> List.length w = i ->
  Forall (fun x => List.length x = 4%nat) w ->
  List.length (aes.expand n Nk i rc w) = (i + n)%nat
  /\ Forall (fun x => List.length x = 4%nat) (aes.expand n Nk i rc w).
Proof.
  unfold bytes.
  induction n as [|n IH]; intros i rc w HNk Hlen Hw; cbn [aes.expand].
  - split; [lia|exact Hw].
  - assert (Hnth : forall j, (j < i)%nat -> List.length (nth j w []) = 4%nat).
    { intros j Hj. rewrite Forall_forall in Hw. apply Hw, nth_In. lia. }
    assert (Ht : List.length (nth (i - 1) w []) = 4%nat) by (apply Hnth; lia).
    assert (Hp : List.length (nth (i - Nk) w []) = 4%nat) by (apply Hnth; lia).
    assert (Hstep : forall x, List.length x = 4%nat ->
              List.length (w ++ [subtle.XORBytes (nth (i - Nk) w []) x]) = S i
              /\ Forall (fun x => List.length x = 4%nat)
                   (w ++ [subtle.XORBytes (nth (i - Nk) w []) x])).
    { intros x Hx. split.
      - rewrite length_app. cbn [List.length]. lia.
      - apply Forall_app. split; [exact Hw|]. constructor; [|constructor].
        rewrite length_XORBytes, Hp, Hx. reflexivity. }
    destruct (Nat.modulo i Nk =? 0)%nat; [|destruct ((6 <? Nk) && _)%nat].
    + destruct (Hstep (subtle.XORBytes (aes.SubWord (aes.RotWord (nth (i - 1) w [])))
                         [rc; x00; x00; x00])) as [H1 H2].
      { rewrite length_XORBytes. unfold aes.SubWord.
        rewrite length_map, length_RotWord, Ht. reflexivity. }
      destruct (IH (S i) (aes.xtime rc) _ ltac:(lia) H1 H2) as [H3 H4].
      split; [etransitivity; [exact H3|lia]|exact H4].
    + destruct (Hstep (aes.SubWord (nth (i - 1) w []))) as [H1 H2].
      { unfold aes.SubWord. now rewrite length_map. }
      destruct (IH (S i) rc _ ltac:(lia) H1 H2) as [H3 H4].
      split; [etransitivity; [exact H3|lia]|exact H4].
    + destruct (Hstep (nth (i - 1) w []) Ht) as [H1 H2].
      destruct (IH (S i) rc _ ltac:(lia) H1 H2) as [H3 H4].
      split; [etransitivity; [exact H3|lia]|exact H4].
Qed.

(** The round keys of a 16-byte key have sixteen bytes each. *)
Lemma KeyExpansion_16 (key : bytes) :
  List.length key = 16%nat ->
  Forall (fun rk => List.length rk = 16%nat) (aes.KeyExpansion key).
Proof.
  intros Hk. unfold aes.KeyExpansion. rewrite Hk.
  change (Nat.div 16 4) with 4%nat. change (4 * (4 + 7) - 4)%nat with 40%nat.
  change (4 + 7)%nat with 11%nat.
  destruct (chunks_spec (fun _ => True) 4 4 key) as [Hc1 Hc2];
    [rewrite Hk; reflexivity | apply Forall_forall; auto |].
  destruct (expand_spec 40 4 4 x01 (word.chunks 4 4 key)) as [He1 He2];
    [lia | exact Hc1 | |].
  { eapply Forall_impl; [|exact Hc2]. now intros c [H _]. }
  destruct (chunks_spec (fun x : bytes => List.length x = 4%nat) 4 11
              (aes.expand 40 4 4 x01 (word.chunks 4 4 key))) as [_ Hr];
    [rewrite He1; reflexivity | exact He2 |].
  apply Forall_forall. intros rk Hin. apply in_map_iff in Hin as (c & <- & Hc).
  rewrite Forall_forall in Hr. destruct (Hr c Hc) as [H4 Hall].
  etransitivity; [exact (length_concat_const 4 c Hall)|].
  etransitivity; [apply f_equal; exact H4|reflexivity].
Qed.

(** The standard algorithms have the sizes and the inverse that the codec
    relies on. *)
#[export] Instance std_crypto_laws : CryptoLaws std_crypto.
Proof.
  constructor.
  - exact md5_Sum_size.
  - exact sha256_Sum256_size.
  - intros key b Hk Hb. cbn [aes_Encrypt std_crypto]. unfold aes.Encrypt.
    now apply InvCipher_Cipher; [apply KeyExpansion_16|].
  - intros key b Hk Hb. cbn [aes_Encrypt aes_Decrypt std_crypto].
    unfold aes.Encrypt, aes.Decrypt.
    now apply InvCipher_Cipher; [apply KeyExpansion_16|].
Qed.

(* ================================================================= *)
(** ** The claims on the standard algorithms *)

Example md5_two_blocks :
  hex.EncodeToString (md5.Sum (List.concat (repeat (B "0123456789abcdef") 5)))
  = B "64ad384ff0664afb1a515db1aebc110f".
Proof. vm_compute. reflexivity. Qed.

Example sha256_two_blocks :
  hex.EncodeToString (sha256.Sum256 (List.concat (repeat (B "0123456789abcdef") 5)))
  = B "d3facc8a61d205c90d339ff6caea3098e076f4b2fb25ebf1cc0d6becafab7fa0".
Proof. vm_compute. reflexivity. Qed.

Example sha256_padding_block :
  hex.EncodeToString (sha256.Sum256 (repeat x61 56))
  = B "b35439a4ac6f0948b6d6f9e3c6af0f5f590ce20f1bde7090ef7970686ec6738a".
Proof. vm_compute. reflexivity. Qed.

Example json_Marshal_power_on : json_Marshal power_on = Ok power_on_request.
Proof. reflexivity. Qed.

Example EncodeMessage_power_on : EncodeMessage 11 power_on_request = Ok power_on_frame.
Proof. vm_compute. reflexivity. Qed.

(** C1 as stated fails: a plaintext that ends in a line feed, a byte of
    value 10, comes back without it. *)
Lemma roundtrip_counterexample :
  (1 <= List.length json_line)%nat
  /\ is_uint32 11
  /\ bind (EncodeMessage 11 json_line) DecodeMessage = Ok (B "{}")
  /\ bind (EncodeMessage 11 json_line) DecodeMessage <> Ok json_line.
Proof.
  split; [cbn; lia|]. split; [reflexivity|].
  assert (H : bind (EncodeMessage 11 json_line) DecodeMessage = Ok (B "{}"))
    by (vm_compute; reflexivity).
  split; [exact H|]. rewrite H. discriminate.
Qed.

Lemma DecodeMessage_EncodeMessage_witness :
  exists frame, EncodeMessage 11 power_on_request = Ok frame
                /\ DecodeMessage frame = Ok power_on_request.
Proof.
  apply (DecodeMessage_EncodeMessage (laws := std_crypto_laws) 11 power_on_request).
  - reflexivity.
  - cbn. lia.
  - reflexivity.
Defined.

Lemma keyIV_spec_witness :
  keyIV 11 = (B "2A564B6FD1B753B4", B "DB4DB0F798FB6BD4")
  /\ List.length (fst (keyIV 11)) = 16%nat
  /\ List.length (snd (keyIV 11)) = 16%nat.
Proof.
  destruct (keyIV_spec (laws := std_crypto_laws) 11 eq_refl) as (H & _ & _ & _ & Hk & Hi).
  split; [|split; assumption].
  rewrite H. vm_compute. reflexivity.
Defined.

Lemma EncodeMessage_spec_witness :
  EncodeMessage 11 power_on_request = Ok power_on_frame
  /\ forallb is_upper_hex_digit power_on_frame = true
  /\ EncodeMessage 11 [] = Err (Errorf "too few bytes").
Proof.
  destruct (EncodeMessage_spec (laws := std_crypto_laws) 11 power_on_request eq_refl)
    as [_ H].
  destruct (H ltac:(discriminate)) as (He & _ & _ & _ & Hup).
  destruct (EncodeMessage_spec (laws := std_crypto_laws) 11 [] eq_refl) as [[_ H0] _].
  assert (Hf : EncodeMessage 11 power_on_request = Ok power_on_frame)
    by (vm_compute; reflexivity).
  rewrite Hf in He. apply Ok_inj in He. rewrite <- He in Hup.
  split; [exact Hf|]. split; [exact Hup|]. exact (H0 eq_refl).
Defined.

(** C5 as stated fails: read as the description has it, the decoder
    cannot decode the frame that [EncodeMessage] builds.  The remainder of
    the frame decodes to the 48 bytes of the ciphertext and the 32 of the
    checksum, and without its first four and last 32 bytes the 44 bytes
    left are no whole number of blocks.  [DecodeMessage] decodes the
    frame. *)
Lemma DecodeMessage_described_counterexample :
  EncodeMessage 11 power_on_request = Ok power_on_frame
  /\ DecodeMessage power_on_frame = Ok power_on_request
  /\ DecodeMessage_described power_on_frame = Panic "crypto/cipher: input not full blocks"
  /\ DecodeMessage_described power_on_frame <> DecodeMessage power_on_frame.
Proof.
  assert (H1 : DecodeMessage power_on_frame = Ok power_on_request)
    by (vm_compute; reflexivity).
  assert (H2 : DecodeMessage_described power_on_frame
               = Panic "crypto/cipher: input not full blocks")
    by (vm_compute; reflexivity).
  split; [vm_compute; reflexivity|]. split; [exact H1|]. split; [exact H2|].
  rewrite H1, H2. discriminate.
Qed.

Lemma DecodeMessage_spec_witness :
  DecodeMessage power_on_frame = Ok power_on_request.
Proof.
  pose proof (DecodeMessage_spec (laws := std_crypto_laws) power_on_frame) as H.
  assert (Hd : exists data, hex.DecodeString power_on_frame = Ok data
                            /\ List.length data = 84%nat).
  { eexists. split; vm_compute; reflexivity. }
  destruct Hd as (data & Hd & Hlen). rewrite Hd, Hlen in H.
  cbv zeta in H. change (84 <? 4 + 32)%nat with false in H. cbv iota in H.
  destruct H as [_ H]. rewrite H.
  - apply DecodeString_Ok in Hd as [-> _]. vm_compute. reflexivity.
  - apply DecodeString_Ok in Hd as [-> _]. vm_compute. reflexivity.
Defined.

Lemma DecodeMessage_ignores_checksum_witness :
  DecodeMessage (firstn 104 power_on_frame ++ skipn 104 power_on_frame)
  = DecodeMessage (firstn 104 power_on_frame ++ repeat x30 64).
Proof.
  apply (DecodeMessage_ignores_checksum (firstn 104 power_on_frame)
           (skipn 104 power_on_frame) (repeat x30 64)); reflexivity.
Defined.

(** C2.  The defect: a call of [Set] whose post fails returns before the
    counter is incremented.  With the counter 11, the request that turns
    the device on is encoded to [power_on_frame] and handed to the
    transport; when the transport fails on that frame, [Set] returns its
    error and the counter is still 11, not 12.  The handler that [run]
    registers for the feature "on" posts the same frame from the same
    counter and has moved it to 12 before it posts. *)
Theorem Set_post_failed_counter :
  let post := fun frame : bytes =>
                if bytes_eqb frame power_on_frame then Err TransportError
                else Ok (ack "success") in
  Device_Set power_on post (mkDevice [] 11) = (mkDevice [] 11, Err TransportError)
  /\ id (after_calls lost_call (mkDevice [] 11)) = 11
  /\ id (after_calls lost_call (mkDevice [] 11))
     <> uint32 (11 + N.of_nat (List.length lost_call))
  /\ OnSet (B "1") 11 = (12, Ok power_on_frame).
Proof.
  assert (H : id (after_calls lost_call (mkDevice [] 11)) = 11)
    by (vm_compute; reflexivity).
  cbv zeta. split; [vm_compute; reflexivity|]. split; [exact H|].
  split; [rewrite H; vm_compute; discriminate|].
  vm_compute. reflexivity.
Qed.

Lemma Set_counter_witness :
  id (after_calls three_calls (mkDevice [] 11)) = 14.
Proof.
  rewrite (Set_counter (laws := std_crypto_laws) three_calls (mkDevice [] 11)).
  - reflexivity.
  - reflexivity.
  - unfold three_calls.
    repeat constructor; try (eexists; split; [reflexivity|discriminate]);
      intros frame; eexists; reflexivity.
Defined.

(* ================================================================= *)
(** * Further properties of the codec *)

Lemma strip_loop_spec (tuo : bytes) :
  exists pads,
    tuo = pads ++ strip_loop tuo
    /\ forallb pad_byte pads = true
    /\ match strip_loop tuo with
       | [] => True
       | c :: _ => pad_byte c = false
       end.
Proof.
  induction tuo as [|c rest (pads & Heq & Hp & Hl)].
  - exists []. now repeat split.
  - cbn [strip_loop]. rewrite pad_byte_test.
    destruct (pad_byte c) eqn:Hc; cbn [negb].
    + exists (c :: pads). cbn [app forallb]. rewrite Hc, Hp, <- Heq. now repeat split.
    + exists []. now repeat split.
Qed.

Lemma strip_padding_cut (out : bytes) :
  exists pads,
    out = strip_padding out ++ pads
    /\ forallb pad_byte pads = true
    /\ (strip_padding out = [] \/ pad_byte (last (strip_padding out) x00) = false).
Proof.
  destruct (strip_loop_spec (rev out)) as (pads & Heq & Hp & Hl).
  exists (rev pads). unfold strip_padding. split; [|split].
  - rewrite <- rev_app_distr, <- Heq. now rewrite rev_involutive.
  - rewrite forallb_forall in *. intros c Hc. apply Hp. now apply in_rev.
  - destruct (strip_loop (rev out)) as [|c rest]; [now left|].
    right. cbn [rev]. now rewrite last_last.
Qed.

(** X1.  The padding-stripping loop of [DecodeMessage] cuts off a tail
    made of bytes in the range 1..16 only, and what it leaves is empty or
    ends in a byte outside that range. *)
Theorem strip_padding_spec (out : bytes) :
  exists pads,
    out = strip_padding out ++ pads
    /\ forallb pad_byte pads = true
    /\ (strip_padding out = [] \/ pad_byte (last (strip_padding out) x00) = false).
Proof. exact (strip_padding_cut out). Qed.

(** X2.  A plaintext returned by [DecodeMessage] never ends in a byte of
    value 1..16, whatever the frame and the cipher. *)
Theorem DecodeMessage_no_trailing_pad {crypto : Crypto} (msg out : bytes) :
  DecodeMessage msg = Ok out ->
  out = [] \/ pad_byte (last out x00) = false.
Proof.
  rewrite DecodeMessage_eq.
  destruct (hex.DecodeString msg) as [data| |]; try discriminate.
  destruct (List.length data <? 36)%nat; try discriminate.
  destruct (Decrypt _ _) as [plain| |]; try discriminate.
  intros H. apply Ok_inj in H. subst out.
  destruct (strip_padding_cut plain) as (_ & _ & _ & H). exact H.
Qed.

Lemma DecodeMessage_no_trailing_pad_witness :
  power_on_request = [] \/ pad_byte (last power_on_request x00) = false.
Proof.
  apply (DecodeMessage_no_trailing_pad power_on_frame power_on_request).
  vm_compute. reflexivity.
Defined.

(** X3.  A plaintext that ends in [k] bytes of value [k] and fills whole
    blocks is encoded to the same frame as the plaintext without these
    bytes: the frame does not tell the two apart. *)
Theorem EncodeMessage_collision {crypto : Crypto} (s : SessionID) (p : bytes) (k : nat) :
  p <> [] -> (1 <= k <= 15)%nat ->
  Nat.modulo (List.length p + k) 16 = 0%nat ->
  EncodeMessage s (p ++ repeat (byte_of (N.of_nat k)) k) = EncodeMessage s p.
Proof.
  intros Hp Hk Hm. unfold EncodeMessage.
  assert (Hp' : (List.length p =? 0)%nat = false).
  { destruct p; [contradiction|reflexivity]. }
  rewrite length_app, repeat_length, Hm, Hp'.
  assert (H0 : (List.length p + k =? 0)%nat = false) by (apply Nat.eqb_neq; lia).
  rewrite H0. change (Nat.modulo (16 - 0) 16) with 0%nat. cbn [repeat].
  rewrite app_nil_r.
  assert (Hpad : Nat.modulo (16 - Nat.modulo (List.length p) 16) 16 = k).
  { pose proof (Nat.div_mod_eq (List.length p) 16) as Hd.
    pose proof (Nat.mod_upper_bound (List.length p) 16 ltac:(discriminate)) as Hr.
    pose proof (Nat.div_mod_eq (List.length p + k) 16) as Hd'. rewrite Hm in Hd'.
    remember (Nat.modulo (List.length p) 16) as r.
    assert (r + k = 16)%nat.
    { remember (Nat.div (List.length p) 16) as q.
      remember (Nat.div (List.length p + k) 16) as q'. nia. }
    replace (16 - r)%nat with k by lia. apply Nat.mod_small. lia. }
  now rewrite Hpad.
Qed.

Lemma EncodeMessage_collision_witness :
  EncodeMessage 11 (repeat x61 15 ++ repeat (byte_of (N.of_nat 1)) 1)
  = EncodeMessage 11 (repeat x61 15).
Proof.
  apply (EncodeMessage_collision 11 (repeat x61 15) 1).
  - discriminate.
  - lia.
  - reflexivity.
Defined.

Section Codec_extras.

Context {crypto : Crypto} {laws : CryptoLaws crypto}.

Lemma CBC_not_blocks (s : SessionID) (data : bytes) :
  Nat.modulo (List.length data) 16 <> 0%nat ->
  Encrypt s data = Panic "crypto/cipher: input not full blocks"
  /\ Decrypt s data = Panic "crypto/cipher: input not full blocks".
Proof.
  intros Hm. unfold Encrypt, Decrypt.
  pose proof (NewCipher_key s) as Hk. pose proof (keyIV_length s) as [_ Hiv].
  destruct (keyIV s) as [key iv]. cbn [fst snd] in *. rewrite Hk. cbn [bind].
  unfold cipher.CBCEncrypt, cipher.CBCDecrypt, cipher.BlockSize. rewrite Hiv.
  apply Nat.eqb_neq in Hm. rewrite Hm. split; reflexivity.
Qed.

(** X4.  [SessionID.Encrypt] and [SessionID.Decrypt] never return an
    error: the derived key always has a size that [aes.NewCipher] accepts.
    On a whole number of blocks they return a result, of the same length
    for [Encrypt]; on anything else the CBC mode of the library panics. *)
Theorem Encrypt_Decrypt_outcome (s : SessionID) (data : bytes) :
  (forall e, Encrypt s data <> Err e)
  /\ (forall e, Decrypt s data <> Err e)
  /\ (Nat.modulo (List.length data) 16 = 0%nat ->
      (exists ct, Encrypt s data = Ok ct /\ List.length ct = List.length data)
      /\ exists out, Decrypt s data = Ok out)
  /\ (Nat.modulo (List.length data) 16 <> 0%nat ->
      Encrypt s data = Panic "crypto/cipher: input not full blocks"
      /\ Decrypt s data = Panic "crypto/cipher: input not full blocks").
Proof.
  destruct (Nat.eq_dec (Nat.modulo (List.length data) 16) 0) as [Hm|Hm].
  - assert (Hb : List.length data = (16 * Nat.div (List.length data) 16)%nat).
    { pose proof (Nat.div_mod_eq (List.length data) 16). lia. }
    destruct (Decrypt_Encrypt s data _ Hb) as (He & Hl & _).
    pose proof (Decrypt_blocks s data _ Hb) as Hd.
    repeat split; try (intros; congruence); try (intros; contradiction).
    + eexists. split; [exact He|exact Hl].
    + eexists. exact Hd.
  - destruct (CBC_not_blocks s data Hm) as [He Hd].
    repeat split; try (intros; congruence); try (intros; contradiction); assumption.
Qed.

(** X5.  Under one session, decrypting what was encrypted gives the data
    back, for every data of a whole number of blocks. *)
Theorem Decrypt_after_Encrypt (s : SessionID) (data : bytes) :
  Nat.modulo (List.length data) 16 = 0%nat ->
  bind (Encrypt s data) (Decrypt s) = Ok data.
Proof.
  intros Hm.
  assert (Hb : List.length data = (16 * Nat.div (List.length data) 16)%nat).
  { pose proof (Nat.div_mod_eq (List.length data) 16). lia. }
  destruct (Decrypt_Encrypt s data _ Hb) as (He & _ & Hd).
  rewrite He. exact Hd.
Qed.

(** X6.  A frame that is hexadecimal text for at least 36 bytes, with a
    number of bytes between the session prefix and the checksum that is no
    multiple of 16, makes [DecodeMessage] panic in the CBC mode of the
    library instead of returning an error. *)
Theorem DecodeMessage_panic (msg : bytes) (n : nat) :
  forallb is_hex_digit msg = true ->
  List.length msg = (2 * n)%nat ->
  (36 <= n)%nat ->
  Nat.modulo (n - 36) 16 <> 0%nat ->
  DecodeMessage msg = Panic "crypto/cipher: input not full blocks".
Proof.
  intros Hh Hl Hn Hm. rewrite DecodeMessage_eq, (DecodeString_hex msg Hh), Hl.
  replace (Nat.even (2 * n)) with true
    by (symmetry; apply Nat.even_spec; now exists n).
  assert (Hlen : List.length (hex_bytes msg) = n).
  { rewrite (length_hex_bytes msg Hh), Hl.
    replace (2 * n)%nat with (n + n)%nat by lia.
    clear. induction n as [|n IH]; [reflexivity|].
    replace (S n + S n)%nat with (S (S (n + n))) by lia. cbn [Nat.div2]. now rewrite IH. }
  rewrite Hlen.
  destruct (n <? 36)%nat eqn:E; [apply Nat.ltb_lt in E; lia|].
  set (body := firstn (n - 36) (skipn 4 (hex_bytes msg))).
  assert (Hb : List.length body = (n - 36)%nat).
  { unfold body. rewrite length_firstn, length_skipn, Hlen. lia. }
  destruct (CBC_not_blocks (ParseID (firstn 8 msg)) body) as [_ Hd];
    [now rewrite Hb|]. now rewrite Hd.
Qed.

End Codec_extras.

Lemma Encrypt_Decrypt_outcome_witness :
  (exists ct, Encrypt 11 (B "0123456789abcdef") = Ok ct /\ List.length ct = 16%nat)
  /\ Encrypt 11 (B "0123456789") = Panic "crypto/cipher: input not full blocks".
Proof.
  split.
  - destruct (Encrypt_Decrypt_outcome (laws := std_crypto_laws) 11 (B "0123456789abcdef"))
      as (_ & _ & H & _).
    destruct (H eq_refl) as [H1 _]. exact H1.
  - destruct (Encrypt_Decrypt_outcome (laws := std_crypto_laws) 11 (B "0123456789"))
      as (_ & _ & _ & H).
    apply H. discriminate.
Defined.

Lemma Decrypt_after_Encrypt_witness :
  bind (Encrypt 11 (B "0123456789abcdef")) (Decrypt 11) = Ok (B "0123456789abcdef").
Proof.
  apply (Decrypt_after_Encrypt (laws := std_crypto_laws) 11 (B "0123456789abcdef")).
  reflexivity.
Defined.

Lemma DecodeMessage_panic_witness :
  DecodeMessage (repeat x30 74) = Panic "crypto/cipher: input not full blocks".
Proof.
  apply (DecodeMessage_panic (laws := std_crypto_laws) (repeat x30 74) 37).
  - reflexivity.
  - reflexivity.
  - lia.
  - discriminate.
Defined.

(** *** Upper and lower case *)

Lemma upper_digit (c : byte) :
  strconv.digit_val (strings.upper c) = strconv.digit_val c
  /\ hex.fromHexChar (strings.upper c) = hex.fromHexChar c
  /\ is_hex_digit (strings.upper c) = is_hex_digit c.
Proof. destruct c; repeat split; reflexivity. Qed.

Lemma parse_loop_ToUpper (s : bytes) : forall n,
  strconv.parse_loop (strings.ToUpper s) n = strconv.parse_loop s n.
Proof.
  induction s as [|c s IH]; intros n; [reflexivity|].
  cbn [strings.ToUpper map strconv.parse_loop].
  rewrite (proj1 (upper_digit c)).
  destruct (strconv.digit_val c) as [d|]; [|reflexivity].
  destruct (16 <=? d); [reflexivity|].
  destruct (strconv.cutoff16 <=? n); [reflexivity|].
  destruct (_ || _); [reflexivity|]. apply IH.
Qed.

Lemma firstn_ToUpper (k : nat) (s : bytes) :
  firstn k (strings.ToUpper s) = strings.ToUpper (firstn k s).
Proof. unfold strings.ToUpper. now rewrite firstn_map. Qed.

Lemma forallb_hex_ToUpper (s : bytes) :
  forallb is_hex_digit (strings.ToUpper s) = forallb is_hex_digit s.
Proof.
  induction s as [|c s IH]; [reflexivity|].
  cbn [strings.ToUpper map forallb]. rewrite (proj2 (proj2 (upper_digit c))).
  f_equal. exact IH.
Qed.

Lemma hexval_ToUpper (s : bytes) : forall n, hexval (strings.ToUpper s) n = hexval s n.
Proof.
  unfold hexval. induction s as [|c s IH]; intros n; [reflexivity|].
  cbn [strings.ToUpper map fold_left]. rewrite (proj1 (upper_digit c)). apply IH.
Qed.

Lemma hex_bytes_ToUpper (s : bytes) : hex_bytes (strings.ToUpper s) = hex_bytes s.
Proof.
  induction s as [| a | p q s IH] using pair_ind; [reflexivity..|].
  cbn [strings.ToUpper map hex_bytes].
  rewrite (proj1 (proj2 (upper_digit p))), (proj1 (proj2 (upper_digit q))).
  destruct (hex.fromHexChar p); [|reflexivity].
  destruct (hex.fromHexChar q); [|reflexivity].
  f_equal. exact IH.
Qed.

Lemma ParseID_ToUpper (data : bytes) : ParseID (strings.ToUpper data) = ParseID data.
Proof.
  unfold ParseID. rewrite length_ToUpper, firstn_ToUpper.
  destruct (8 <? List.length data)%nat.
  - unfold strconv.ParseUint16_32.
    destruct (firstn 8 data) as [|c t] eqn:E; [reflexivity|].
    change (strings.ToUpper (c :: t)) with (strings.upper c :: strings.ToUpper t).
    change (strings.upper c :: strings.ToUpper t) with (strings.ToUpper (c :: t)).
    now rewrite parse_loop_ToUpper.
  - unfold strconv.ParseUint16_32.
    destruct data as [|c t]; [reflexivity|].
    change (strings.ToUpper (c :: t)) with (strings.upper c :: strings.ToUpper t).
    change (strings.upper c :: strings.ToUpper t) with (strings.ToUpper (c :: t)).
    now rewrite parse_loop_ToUpper.
Qed.

(** X7.  [ParseID] returns the number that the first eight bytes of its
    input denote when they are hexadecimal digits, of either case, and zero
    otherwise; upper and lower case are read alike. *)
Theorem ParseID_value (data : bytes) :
  ParseID data = (if hex_text (firstn 8 data) then hexval (firstn 8 data) 0 else 0)
  /\ ParseID (strings.ToUpper data) = ParseID data.
Proof.
  split; [|apply ParseID_ToUpper].
  rewrite ParseID_firstn. apply ParseID_short. rewrite length_firstn. lia.
Qed.

(** X8.  A frame of hexadecimal digits decodes alike in upper and in lower
    case. *)
Theorem DecodeMessage_case {crypto : Crypto} (msg : bytes) :
  forallb is_hex_digit msg = true ->
  DecodeMessage (strings.ToUpper msg) = DecodeMessage msg.
Proof.
  intros Hh. rewrite !DecodeMessage_eq.
  rewrite firstn_ToUpper, ParseID_ToUpper.
  rewrite (DecodeString_hex (strings.ToUpper msg))
    by (now rewrite forallb_hex_ToUpper).
  rewrite (DecodeString_hex msg Hh), length_ToUpper, hex_bytes_ToUpper.
  reflexivity.
Qed.

Lemma DecodeMessage_case_witness :
  DecodeMessage (strings.ToUpper (B "0000000b698ea726a265c48549f18d0a5269f096648a16f75d9c625a22f3a16d23cba98ea1cb6c3fdb86630ae862dddcce459e78c7f6fb3ce7f41ff9dea31f199c975fdfc2b41c10faa232f6475fc14d45f414ba"))
  = DecodeMessage (B "0000000b698ea726a265c48549f18d0a5269f096648a16f75d9c625a22f3a16d23cba98ea1cb6c3fdb86630ae862dddcce459e78c7f6fb3ce7f41ff9dea31f199c975fdfc2b41c10faa232f6475fc14d45f414ba").
Proof. apply DecodeMessage_case. vm_compute. reflexivity. Defined.

Section Codec_extras_2.

Context {crypto : Crypto} {laws : CryptoLaws crypto}.

(** X9.  The only errors that [DecodeMessage] returns are the error of
    the hex-decoding and "too few bytes": with the derived key, the path
    "unable to decrypt" is never taken. *)
Theorem DecodeMessage_errors (msg : bytes) (e : error) :
  DecodeMessage msg = Err e ->
  (exists h, hex.DecodeString msg = Err (HexError h)
             /\ e = Wrap "error decoding hex" (HexError h))
  \/ (e = Errorf "too few bytes"
      /\ exists data, hex.DecodeString msg = Ok data /\ (List.length data < 36)%nat).
Proof.
  rewrite DecodeMessage_eq.
  destruct (hex.DecodeString msg) as [data|e'|m] eqn:Hd; [| |discriminate].
  - destruct (List.length data <? 36)%nat eqn:E.
    + intros H. right. injection H as <-. split; [reflexivity|].
      exists data. split; [reflexivity|now apply Nat.ltb_lt].
    + set (body := firstn (List.length data - 36) (skipn 4 data)).
      destruct (Nat.eq_dec (Nat.modulo (List.length body) 16) 0) as [Hm|Hm].
      * assert (Hb : List.length body = (16 * Nat.div (List.length body) 16)%nat).
        { pose proof (Nat.div_mod_eq (List.length body) 16). lia. }
        rewrite (Decrypt_blocks _ body _ Hb). discriminate.
      * destruct (CBC_not_blocks (ParseID (firstn 8 msg)) body Hm) as [_ ->].
        discriminate.
  - intros H. left. injection H as <-.
    assert (He : exists h, e' = HexError h).
    { clear -Hd. revert e' Hd.
      induction msg as [| a | p q msg IH] using pair_ind; intros e' Hd.
      - discriminate.
      - cbn [hex.DecodeString] in Hd. destruct (hex.fromHexChar a);
          injection Hd as <-; eexists; reflexivity.
      - rewrite DecodeString_cons2 in Hd.
        destruct (hex.fromHexChar p); [|injection Hd as <-; eexists; reflexivity].
        destruct (hex.fromHexChar q); [|injection Hd as <-; eexists; reflexivity].
        destruct (hex.DecodeString msg) as [out|e''|m]; try discriminate.
        injection Hd as <-. now apply IH. }
    destruct He as [h ->]. exists h. now split.
Qed.

(** X10.  The frame of a plaintext of [len] bytes has
    [72 + 32 * ceil(len / 16)] characters: eight for the session, two for
    each byte of the padded plaintext and 64 for the checksum. *)
Theorem EncodeMessage_length (s : SessionID) (p frame : bytes) :
  is_uint32 s ->
  EncodeMessage s p = Ok frame ->
  List.length frame = (72 + 32 * Nat.div (List.length p + 15) 16)%nat.
Proof.
  intros Hs He.
  assert (Hp : p <> []) by (intros ->; discriminate He).
  pose proof (EncodeMessage_frame s p Hp) as Hf. cbv zeta in Hf.
  rewrite Hf in He. apply Ok_inj in He. subst frame.
  pose proof (padded_length (List.length p)) as (Hpl & Hlt & _). cbv zeta in Hpl, Hlt.
  set (pad := Nat.modulo (16 - Nat.modulo (List.length p) 16) 16) in *.
  set (padded := p ++ repeat (byte_of (N.of_nat pad)) pad).
  assert (Hl0 : List.length padded = (List.length p + pad)%nat)
    by (unfold padded; now rewrite length_app, repeat_length).
  assert (Hlen : List.length padded = (16 * Nat.div (List.length padded) 16)%nat)
    by (rewrite Hl0; exact Hpl).
  destruct (Decrypt_Encrypt s padded _ Hlen) as (_ & Hct & _).
  rewrite !length_app, !length_upper_hex, Hct, sha256_Sum256_length.
  rewrite (proj1 (Hex_spec s Hs)), Hl0.
  assert (Hq : Nat.div (List.length p + 15) 16 = Nat.div (List.length p + pad) 16).
  { symmetry. apply (Nat.div_unique _ 16 _ (15 - pad)); lia. }
  rewrite Hq. lia.
Qed.

(** X11.  Decoding the frame of a plaintext gives the plaintext without
    the bytes of value 1..16 that it ends with, for every plaintext that
    is not empty. *)
Theorem DecodeMessage_EncodeMessage_general (s : SessionID) (p : bytes) :
  is_uint32 s -> p <> [] ->
  bind (EncodeMessage s p) DecodeMessage = Ok (strip_padding p).
Proof.
  intros Hs Hp.
  destruct (DecodeMessage_EncodeMessage_strip s p Hs Hp) as (frame & -> & Hd).
  exact Hd.
Qed.

End Codec_extras_2.

Lemma DecodeMessage_errors_witness :
  (exists h, hex.DecodeString (B "0000000B12") = Err (HexError h)
             /\ Errorf "too few bytes" = Wrap "error decoding hex" (HexError h))
  \/ (Errorf "too few bytes" = Errorf "too few bytes"
      /\ exists data, hex.DecodeString (B "0000000B12") = Ok data
                      /\ (List.length data < 36)%nat).
Proof.
  apply (DecodeMessage_errors (laws := std_crypto_laws) (B "0000000B12")).
  reflexivity.
Defined.

Lemma EncodeMessage_length_witness :
  List.length power_on_frame = (72 + 32 * Nat.div (List.length power_on_request + 15) 16)%nat.
Proof.
  apply (EncodeMessage_length (laws := std_crypto_laws) 11 power_on_request power_on_frame).
  - reflexivity.
  - vm_compute. reflexivity.
Defined.

Lemma DecodeMessage_EncodeMessage_general_witness :
  bind (EncodeMessage 11 json_line) DecodeMessage = Ok (strip_padding json_line).
Proof.
  apply (DecodeMessage_EncodeMessage_general (laws := std_crypto_laws) 11 json_line).
  - reflexivity.
  - discriminate.
Defined.

(* ================================================================= *)
(** * Further properties of the device client *)

Lemma bytes_eqb_eq (a b : bytes) : bytes_eqb a b = true <-> a = b.
Proof.
  revert b. induction a as [|x a IH]; intros [|y b]; cbn [bytes_eqb];
    try (split; [discriminate|discriminate]); [now split|].
  rewrite andb_true_iff, IH. split.
  - intros [Hxy ->]. f_equal. now apply Byte.byte_dec_bl.
  - intros [= -> ->]. split; [now apply Byte.byte_dec_lb|reflexivity].
Qed.

(** X12.  The handshake of [New] takes any answer of the device: when
    dialling and posting succeed, a device is returned whose counter is the
    number read from the answer plus one modulo [2^32], so that an answer
    that is no hexadecimal number gives the counter 1.  [Device.Session]
    of the earlier client computes the same counter. *)
Theorem New_accepts_any_answer {crypto : Crypto} (address : bytes) (sess : SessionID)
    (post : bytes -> result bytes) (rsp : bytes) :
  post (Hex sess) = Ok rsp ->
  New address (Ok tt) sess post = Ok (mkDevice address (uint32 (ParseID rsp + 1)))
  /\ Device_Session sess post = Ok (uint32 (ParseID rsp + 1))
  /\ (hex_text (firstn 8 rsp) = false -> uint32 (ParseID rsp + 1) = 1).
Proof.
  intros H. unfold New, Device_Session, Increment. rewrite H. cbn [wrapped bind].
  repeat split. intros Hh.
  rewrite ParseID_firstn, ParseID_short, Hh by (rewrite length_firstn; lia).
  reflexivity.
Qed.

Lemma New_accepts_any_answer_witness :
  New (B "192.0.2.1") (Ok tt) 7 (fun _ => Ok (B "no such session"))
  = Ok (mkDevice (B "192.0.2.1") 1).
Proof.
  destruct (New_accepts_any_answer (B "192.0.2.1") 7
              (fun _ => Ok (B "no such session")) (B "no such session") eq_refl)
    as (H & _ & H1).
  rewrite H. now rewrite H1.
Defined.

(** X13.  [New] fails only when dialling or the post to the sync endpoint
    fails, and then with the error of that step wrapped in its text. *)
Theorem New_errors {crypto : Crypto} (address : bytes) (dial : result unit)
    (sess : SessionID) (post : bytes -> result bytes) (e : error) :
  New address dial sess post = Err e ->
  (exists e', dial = Err e' /\ e = Wrap "error dialing" e')
  \/ (exists e', post (Hex sess) = Err e'
                 /\ e = Wrap "failed to post to /sys/dev/sync and get session" e').
Proof.
  unfold New. destruct dial as [[]|e'|m]; cbn [wrapped bind]; try discriminate.
  - destruct (post (Hex sess)) as [rsp|e'|m]; cbn [wrapped bind]; try discriminate.
    intros [= <-]. right. now exists e'.
  - intros [= <-]. left. now exists e'.
Qed.

Lemma New_errors_witness :
  (exists e', @Err unit TransportError = Err e'
              /\ Wrap "error dialing" TransportError = Wrap "error dialing" e')
  \/ (exists e', (fun _ : bytes => @Ok bytes (B "0000000A")) (Hex 7) = Err e'
                 /\ Wrap "error dialing" TransportError
                    = Wrap "failed to post to /sys/dev/sync and get session" e').
Proof.
  apply (New_errors (B "192.0.2.1") (Err TransportError) 7 (fun _ => Ok (B "0000000A"))).
  reflexivity.
Defined.

Section Device_extras.

Context {crypto : Crypto} {json : JSON}.

(** [Set], outcome by outcome. *)
Lemma Device_Set_eq (msg : Desired) (post : bytes -> result bytes) (d : Device) :
  Device_Set msg post d =
    match json_Marshal msg with
    | Ok data =>
        match EncodeMessage (id d) data with
        | Ok newMsg =>
            match post newMsg with
            | Ok resp =>
                let d' := mkDevice (addr d) (Increment (id d)) in
                match json_Unmarshal resp with
                | Ok state =>
                    if bytes_eqb (map_index state (B "status")) (B "success")
                    then (d', Ok tt)
                    else (d', Err (Errorf "did not manage to set value"))
                | Err e => (d', Err e)
                | Panic m => (d', Panic m)
                end
            | Err e => (d, Err e)
            | Panic m => (d, Panic m)
            end
        | Err e => (d, Err e)
        | Panic m => (d, Panic m)
        end
    | Err e => (d, Err e)
    | Panic m => (d, Panic m)
    end.
Proof.
  unfold Device_Set, dev_bind, dev_try, dev_get, dev_ret, id_Increment.
  destruct (json_Marshal msg) as [data| |]; try reflexivity.
  destruct (EncodeMessage (id d) data) as [frame| |]; try reflexivity.
  destruct (post frame) as [resp| |]; try reflexivity.
  destruct (json_Unmarshal resp) as [state| |]; try reflexivity.
  now destruct (bytes_eqb _ _).
Qed.

(** X14.  [Set] returns no error exactly when the request was marshalled,
    encoded under the current counter, posted and answered, and the answer
    is a JSON object whose "status" is "success"; the counter has then
    moved by one. *)
Theorem Device_Set_success (msg : Desired) (post : bytes -> result bytes)
    (d d' : Device) :
  Device_Set msg post d = (d', Ok tt) <->
  exists data frame resp state,
    json_Marshal msg = Ok data
    /\ EncodeMessage (id d) data = Ok frame
    /\ post frame = Ok resp
    /\ json_Unmarshal resp = Ok state
    /\ map_index state (B "status") = B "success"
    /\ d' = mkDevice (addr d) (Increment (id d)).
Proof.
  rewrite Device_Set_eq. split.
  - destruct (json_Marshal msg) as [data| |] eqn:Hm; try discriminate.
    destruct (EncodeMessage (id d) data) as [frame| |] eqn:He; try discriminate.
    destruct (post frame) as [resp| |] eqn:Hp; try discriminate. cbv zeta.
    destruct (json_Unmarshal resp) as [state| |] eqn:Hu; try discriminate.
    destruct (bytes_eqb _ _) eqn:E; try discriminate.
    intros [= <-]. exists data, frame, resp, state.
    repeat split; try assumption. now apply bytes_eqb_eq.
  - intros (data & frame & resp & state & -> & -> & -> & -> & Hs & ->). cbv zeta.
    apply bytes_eqb_eq in Hs. now rewrite Hs.
Qed.

(** X15.  Whatever happens in a call of [Set], the address of the device
    is kept and the counter is either kept or moved by one; it is moved
    exactly when the request was marshalled, encoded, posted and answered. *)
Theorem Device_Set_counter (msg : Desired) (post : bytes -> result bytes) (d : Device) :
  let d' := fst (Device_Set msg post d) in
  addr d' = addr d
  /\ ((exists data frame resp,
         json_Marshal msg = Ok data /\ EncodeMessage (id d) data = Ok frame
         /\ post frame = Ok resp)
      /\ id d' = Increment (id d)
      \/ (~ exists data frame resp,
            json_Marshal msg = Ok data /\ EncodeMessage (id d) data = Ok frame
            /\ post frame = Ok resp)
         /\ d' = d).
Proof.
  cbv zeta. rewrite Device_Set_eq.
  destruct (json_Marshal msg) as [data| |] eqn:Hm;
    try (split; [reflexivity|right; split; [|reflexivity]];
         intros (x & y & z & H & _); discriminate).
  destruct (EncodeMessage (id d) data) as [frame| |] eqn:He;
    try (split; [reflexivity|right; split; [|reflexivity]];
         intros (x & y & z & H & H' & _); injection H as <-;
         rewrite He in H'; discriminate).
  destruct (post frame) as [resp| |] eqn:Hp;
    try (split; [reflexivity|right; split; [|reflexivity]];
         intros (x & y & z & H & H' & H''); injection H as <-;
         rewrite He in H'; injection H' as <-; rewrite Hp in H''; discriminate).
  cbv zeta.
  assert (Hex_ : exists data0 frame0 resp0,
             Ok data = Ok data0 /\ EncodeMessage (id d) data0 = Ok frame0
             /\ post frame0 = Ok resp0) by (exists data, frame, resp; auto).
  destruct (json_Unmarshal resp) as [state| |];
    [destruct (bytes_eqb _ _)| |]; (split; [reflexivity|left; split; [exact Hex_|reflexivity]]).
Qed.

(** X16.  The transport is asked at most one thing in a call of [Set]:
    to post the frame of the marshalled request under the current counter.
    Two transports that answer that frame alike give the same call. *)
Theorem Device_Set_posts_frame (msg : Desired) (post post' : bytes -> result bytes)
    (d : Device) :
  (forall data frame,
     json_Marshal msg = Ok data -> EncodeMessage (id d) data = Ok frame ->
     post frame = post' frame) ->
  Device_Set msg post d = Device_Set msg post' d.
Proof.
  intros H. rewrite !Device_Set_eq.
  destruct (json_Marshal msg) as [data| |] eqn:Hm; try reflexivity.
  destruct (EncodeMessage (id d) data) as [frame| |] eqn:He; try reflexivity.
  now rewrite (H data frame eq_refl He).
Qed.

End Device_extras.

Lemma Device_Set_success_witness :
  Device_Set power_on (fun _ => Ok (ack "success")) (mkDevice [] 11)
  = (mkDevice [] 12, Ok tt).
Proof.
  apply (Device_Set_success (json := example_json) power_on
           (fun _ => Ok (ack "success")) (mkDevice [] 11) (mkDevice [] 12)).
  exists power_on_request, power_on_frame, (ack "success"), [(B "status", B "success")].
  split; [vm_compute; reflexivity|]. split; [vm_compute; reflexivity|].
  split; [reflexivity|]. split; [vm_compute; reflexivity|].
  split; [reflexivity|]. vm_compute; reflexivity.
Defined.

Lemma Device_Set_posts_frame_witness :
  Device_Set power_on (fun _ => Ok (ack "success")) (mkDevice [] 11)
  = Device_Set power_on
      (fun frame => if bytes_eqb frame power_on_frame then Ok (ack "success")
                    else Err TransportError) (mkDevice [] 11).
Proof.
  apply (Device_Set_posts_frame (json := example_json) power_on).
  intros data frame Hd Hf. apply Ok_inj in Hd. subst data.
  assert (He : EncodeMessage 11 power_on_request = Ok power_on_frame)
    by (vm_compute; reflexivity).
  change (EncodeMessage (id (mkDevice [] 11))
            (B "{" ++ quote "state" ++ B ":{" ++ quote "desired" ++ B ":{" ++ power_on ++ B "}}}"))
    with (EncodeMessage 11 power_on_request) in Hf.
  rewrite He in Hf. apply Ok_inj in Hf. subst frame.
  assert (Hb : bytes_eqb power_on_frame power_on_frame = true)
    by (apply bytes_eqb_eq; reflexivity).
  now rewrite Hb.
Defined.

(* ================================================================= *)
(** * Properties of the state model *)

(** X17.  [FanSpeed.ToHemtjanst] gives the rotation speed "0" exactly for
    a code that is none of the five known ones, and different known codes
    give different speeds. *)
Theorem FanSpeed_ToHemtjanst_spec (f : FanSpeed) :
  (FanSpeed_ToHemtjanst f = B "0" <-> ~ In f known_speeds)
  /\ forall g, In f known_speeds -> In g known_speeds ->
               FanSpeed_ToHemtjanst f = FanSpeed_ToHemtjanst g -> f = g.
Proof.
  assert (Hk : forall x, In x known_speeds ->
                 FanSpeed_ToHemtjanst x <> B "0"
                 /\ forall y, In y known_speeds ->
                      FanSpeed_ToHemtjanst x = FanSpeed_ToHemtjanst y -> x = y).
  { intros x Hx. cbn in Hx.
    destruct Hx as [<-|[<-|[<-|[<-|[<-|[]]]]]]; (split; [discriminate|]);
      intros y Hy; cbn in Hy;
      destruct Hy as [<-|[<-|[<-|[<-|[<-|[]]]]]]; intros H;
      try reflexivity; discriminate H. }
  split.
  - split.
    + intros H0 Hin. now apply (proj1 (Hk f Hin)).
    + intros Hn. unfold FanSpeed_ToHemtjanst.
      destruct (bytes_eqb f Silent) eqn:E1;
        [apply bytes_eqb_eq in E1; exfalso; apply Hn; subst; cbn; tauto|].
      destruct (bytes_eqb f Speed1) eqn:E2;
        [apply bytes_eqb_eq in E2; exfalso; apply Hn; subst; cbn; tauto|].
      destruct (bytes_eqb f Speed2) eqn:E3;
        [apply bytes_eqb_eq in E3; exfalso; apply Hn; subst; cbn; tauto|].
      destruct (bytes_eqb f Speed3) eqn:E4;
        [apply bytes_eqb_eq in E4; exfalso; apply Hn; subst; cbn; tauto|].
      destruct (bytes_eqb f Turbo) eqn:E5;
        [apply bytes_eqb_eq in E5; exfalso; apply Hn; subst; cbn; tauto|].
      reflexivity.
  - intros g Hf. now apply (proj2 (Hk f Hf)).
Qed.

(** X18.  [AirQuality.ToHemtjanst] always gives one of the five levels;
    every index that is not in 1..9, zero and the negative ones included,
    gives the worst level "5", and only the index 1 gives the level "1". *)
Theorem AirQuality_ToHemtjanst_spec (a : AirQuality) :
  In (AirQuality_ToHemtjanst a) ["1"; "2"; "3"; "4"; "5"]%string
  /\ ((a <= 0 \/ 10 <= a)%Z -> AirQuality_ToHemtjanst a = "5"%string)
  /\ (AirQuality_ToHemtjanst a = "1"%string <-> a = 1%Z).
Proof.
  assert (Hcases : (a <= 0 \/ a = 1 \/ a = 2 \/ a = 3 \/ a = 4 \/ a = 5 \/ a = 6
                    \/ a = 7 \/ a = 8 \/ a = 9 \/ 10 <= a)%Z) by lia.
  assert (Hout : ((a <= 0 \/ 10 <= a)%Z -> AirQuality_ToHemtjanst a = "5"%string)).
  { intros H. unfold AirQuality_ToHemtjanst.
    repeat match goal with
           | |- context [(a =? ?k)%Z] =>
               destruct (Z.eqb_spec a k) as [E|_]; [exfalso; lia|]
           end.
    cbn [orb].
    destruct (a =? 10)%Z, (a =? 11)%Z, (a =? 12)%Z; reflexivity. }
  destruct Hcases as [H|[H|[H|[H|[H|[H|[H|[H|[H|[H|H]]]]]]]]]];
    try (subst a; split; [cbn; tauto|split; [intros; lia|]];
         split; intros H; first [reflexivity|discriminate H|lia]);
    (rewrite Hout by lia; split; [cbn; tauto|split; [reflexivity|]];
     split; intros H'; first [discriminate H'|lia]).
Qed.

Lemma AirQuality_ToHemtjanst_spec_witness :
  AirQuality_ToHemtjanst (-4)%Z = "5"%string.
Proof.
  destruct (AirQuality_ToHemtjanst_spec (-4)%Z) as (_ & H & _).
  apply H. lia.
Defined.

Lemma round53_ge (a : Z) : (2 ^ 53 <= a -> 2 ^ 53 <= math.round53 a)%Z.
Proof.
  intros Ha. unfold math.round53.
  destruct (a <? 2 ^ 53)%Z eqn:E; [apply Z.ltb_lt in E; lia|].
  cbv zeta.
  assert (H53 : (53 <= Z.log2 a)%Z).
  { apply Z.log2_le_pow2; lia. }
  set (e := (Z.log2 a - 52)%Z).
  assert (He : (0 < e)%Z) by (unfold e; lia).
  assert (Hq : (2 ^ 52 <= a / 2 ^ e)%Z).
  { apply Z.div_le_lower_bound; [apply Z.pow_pos_nonneg; lia|].
    rewrite Z.mul_comm, <- Z.pow_add_r by lia.
    replace (52 + e)%Z with (Z.log2 a) by (unfold e; lia).
    apply Z.log2_spec. lia. }
  assert (Hp : (2 <= 2 ^ e)%Z).
  { change 2%Z with (2 ^ 1)%Z at 1. apply Z.pow_le_mono_r; lia. }
  assert (H0 : (2 ^ 53 <= a / 2 ^ e * 2 ^ e)%Z).
  { change (2 ^ 53)%Z with (2 ^ 52 * 2)%Z. apply Z.mul_le_mono_nonneg; lia. }
  assert (H1 : (a / 2 ^ e * 2 ^ e <= (a / 2 ^ e + 1) * 2 ^ e)%Z) by nia.
  repeat match goal with |- context [if ?c then _ else _] => destruct c end; lia.
Qed.

(** X19.  The density of fine particles that [handleObserve] publishes is
    never above 100: a reading of at most 100 (and at least [-2^53]) is
    published as it is, a greater one as 100. *)
Theorem pm2_5Density_capped (pm25 : Z) :
  (pm2_5Density pm25 <= 100)%Z
  /\ ((- 2 ^ 53 <= pm25 <= 100)%Z -> pm2_5Density pm25 = pm25)
  /\ ((100 <= pm25)%Z -> pm2_5Density pm25 = 100%Z).
Proof.
  unfold pm2_5Density. split; [apply Z.le_min_r|]. split.
  - intros [Hlo Hhi]. unfold math.float64_of_int, math.round53.
    destruct (pm25 <? 0)%Z eqn:E.
    + destruct (- pm25 <? 2 ^ 53)%Z eqn:E2.
      * lia.
      * apply Z.ltb_ge in E2. assert (pm25 = (- 2 ^ 53)%Z) by lia. subst pm25.
        vm_compute. reflexivity.
    + apply Z.ltb_ge in E.
      destruct (pm25 <? 2 ^ 53)%Z eqn:E2; [lia|].
      apply Z.ltb_ge in E2. change (2 ^ 53)%Z with 9007199254740992%Z in E2. lia.
  - intros H. apply Z.min_r. unfold math.float64_of_int.
    destruct (pm25 <? 0)%Z eqn:E; [apply Z.ltb_lt in E; lia|].
    destruct (Z.lt_ge_cases pm25 (2 ^ 53)) as [Hs|Hb].
    + unfold math.round53. apply Z.ltb_lt in Hs. now rewrite Hs.
    + pose proof (round53_ge pm25 Hb).
      change (2 ^ 53)%Z with 9007199254740992%Z in *. lia.
Qed.

Lemma pm2_5Density_capped_witness :
  pm2_5Density 37 = 37%Z /\ pm2_5Density 250 = 100%Z.
Proof.
  destruct (pm2_5Density_capped 37) as (_ & H1 & _).
  destruct (pm2_5Density_capped 250) as (_ & _ & H2).
  split; [apply H1|apply H2]; lia.
Defined.

(* ================================================================= *)
(** * Properties of the handlers of the bridge *)

Lemma feature_updates_are_updates (u : Reported) (e : event) :
  In e (feature_updates u) -> exists f v, e = Update f v.
Proof.
  unfold feature_updates.
  destruct (R_ChildLock u), (bytes_eqb (R_Mode u) Manual), (bytes_eqb (R_Power u) On);
    try destruct (_ || _);
    cbn [app In]; intros H;
    repeat (destruct H as [<-|H]; [eexists; eexists; reflexivity|]);
    contradiction.
Qed.

(** The names of the features updated: five in any case, twelve more when
    the device is on and five more when it is not. *)
Lemma updated_feature_updates (u : Reported) :
  updated (feature_updates u) =
    List.app
      ["on"; "targetHumidifierDehumidifierState"; "lockPhysicalControls";
       "targetAirPurifierState"; "targetFanState"]%string
      (if bytes_eqb (R_Power u) On then
         ["brightness"; "currentAirPurifierState"; "currentFanState"; "rotationSpeed";
          "airQuality"; "pm2_5Density"; "filterChangeIndication";
          "currentRelativeHumidity"; "targetRelativeHumidity";
          "currentHumidifierDehumidifierState"; "currentTemperature"; "waterLevel"]%string
       else
         ["brightness"; "currentAirPurifierState"; "currentFanState"; "rotationSpeed";
          "currentHumidifierDehumidifierState"]%string).
Proof.
  unfold feature_updates.
  destruct (R_ChildLock u), (bytes_eqb (R_Mode u) Manual), (bytes_eqb (R_Power u) On);
    try destruct (_ || _); reflexivity.
Qed.

Lemma NoDup_strings (l : list string) : nodup string_dec l = l -> NoDup l.
Proof. intros <-. apply NoDup_nodup. Qed.

Lemma incl_strings (l1 l2 : list string) :
  forallb (fun x => existsb (String.eqb x) l2) l1 = true -> incl l1 l2.
Proof.
  intros H x Hx. rewrite forallb_forall in H. specialize (H x Hx).
  apply existsb_exists in H as (y & Hy & E). apply String.eqb_eq in E. now subst.
Qed.

(** X20.  For every decoded status, [handleObserve] updates each feature
    at most once and only features that [run] has registered; when the
    device is on, it updates every registered feature. *)
Theorem feature_updates_registered (u : Reported) :
  NoDup (updated (feature_updates u))
  /\ incl (updated (feature_updates u)) registered_features
  /\ (R_Power u = On -> incl registered_features (updated (feature_updates u))).
Proof.
  rewrite updated_feature_updates.
  destruct (bytes_eqb (R_Power u) On) eqn:E.
  - split; [apply NoDup_strings; vm_compute; reflexivity|].
    split; intros; apply incl_strings; vm_compute; reflexivity.
  - split; [apply NoDup_strings; vm_compute; reflexivity|].
    split; [apply incl_strings; vm_compute; reflexivity|].
    intros H. apply bytes_eqb_eq in H. congruence.
Qed.

Lemma feature_updates_registered_witness :
  incl registered_features (updated (feature_updates status_on)).
Proof.
  destruct (feature_updates_registered status_on) as (_ & _ & H).
  apply H. reflexivity.
Defined.

(** X21.  While the device reports a power state other than "1", no
    reading takes part in the updates: two statuses with the same power
    state, child lock and mode give the same updates. *)
Theorem feature_updates_off (u u' : Reported) :
  R_Power u <> On ->
  R_Power u' = R_Power u ->
  R_ChildLock u' = R_ChildLock u ->
  R_Mode u' = R_Mode u ->
  feature_updates u' = feature_updates u
  /\ ~ In "airQuality"%string (updated (feature_updates u)).
Proof.
  intros Hoff Hp Hc Hm.
  assert (E : bytes_eqb (R_Power u) On = false).
  { destruct (bytes_eqb (R_Power u) On) eqn:E; [|reflexivity].
    apply bytes_eqb_eq in E. contradiction. }
  split.
  - unfold feature_updates. rewrite Hp, Hc, Hm, E. reflexivity.
  - rewrite updated_feature_updates, E. cbn [app In].
    intros H. repeat (destruct H as [H|H]; [discriminate H|]). exact H.
Qed.

Lemma feature_updates_off_witness :
  feature_updates (mkReported Turbo Off true 100 Manual Purification 0 0 0 999 9 0 0 0 0 0 0)%Z
  = feature_updates (mkReported Silent Off true 0 Manual Purification 0 0 0 0 1 0 0 0 0 0 0)%Z.
Proof.
  apply (feature_updates_off
           (mkReported Silent Off true 0 Manual Purification 0 0 0 0 1 0 0 0 0 0 0)%Z
           (mkReported Turbo Off true 100 Manual Purification 0 0 0 999 9 0 0 0 0 0 0)%Z);
    try reflexivity.
  discriminate.
Defined.

Section Bridge_theory.

Context {crypto : Crypto} {status_json : StatusJSON}.

(** X22.  [handleObserve] writes the acknowledgement exactly when the
    message is confirmable, once, and before the payload is decoded: only
    the line of the debug log comes before it, whatever the payload is. *)
Theorem handleObserve_acknowledges (debug confirmable write_failed : bool)
    (payload : bytes) :
  exists rest,
    handleObserve debug confirmable write_failed payload
    = (if debug then [Log (LogPayload payload)] else [])
      ++ (if confirmable then [WriteAck] else []) ++ rest
    /\ ~ In WriteAck rest.
Proof.
  unfold handleObserve.
  set (tail := match DecodeMessage payload with
               | Ok _ => _ | Err _ => _ | Panic _ => _ end).
  assert (Ht : ~ In WriteAck tail).
  { unfold tail. destruct (DecodeMessage payload) as [resp|e|m].
    - rewrite in_app_iff. intros [H|H].
      + destruct debug; cbn in H; [destruct H as [H|[]]; discriminate H|contradiction].
      + destruct (json_Unmarshal_Status resp) as [data|e|m].
        * rewrite in_app_iff in H. destruct H as [H|H].
          -- destruct debug; cbn in H; [destruct H as [H|[]]; discriminate H|contradiction].
          -- apply feature_updates_are_updates in H as (f & v & H). discriminate H.
        * destruct H as [H|[]]. discriminate H.
        * destruct H as [H|[]]. discriminate H.
    - intros [H|[]]. discriminate H.
    - intros [H|[]]. discriminate H. }
  destruct confirmable.
  - exists ((if write_failed then [Log LogAckFailed] else []) ++ tail). split.
    + reflexivity.
    + rewrite in_app_iff. intros [H|H]; [|now apply Ht].
      destruct write_failed; cbn in H; [destruct H as [H|[]]; discriminate H|contradiction].
  - exists tail. split; [reflexivity|exact Ht].
Qed.

(** X23.  [handleObserve] updates features only from a payload that
    decodes and whose plaintext is a status: a frame that fails at either
    step changes no feature. *)
Theorem handleObserve_updates (debug confirmable write_failed : bool)
    (payload : bytes) (f : string) (v : bytes) :
  In (Update f v) (handleObserve debug confirmable write_failed payload) ->
  exists resp data,
    DecodeMessage payload = Ok resp
    /\ json_Unmarshal_Status resp = Ok data
    /\ In (Update f v) (feature_updates data).
Proof.
  unfold handleObserve. rewrite !in_app_iff. intros [H|[H|H]].
  - destruct debug; cbn in H; [destruct H as [H|[]]; discriminate H|contradiction].
  - destruct confirmable; [|contradiction].
    destruct H as [H|H]; [discriminate H|].
    destruct write_failed; cbn in H; [destruct H as [H|[]]; discriminate H|contradiction].
  - destruct (DecodeMessage payload) as [resp|e|m].
    + rewrite in_app_iff in H. destruct H as [H|H].
      * destruct debug; cbn in H; [destruct H as [H|[]]; discriminate H|contradiction].
      * destruct (json_Unmarshal_Status resp) as [data|e|m] eqn:Hu.
        -- rewrite in_app_iff in H. destruct H as [H|H].
           ++ destruct debug; cbn in H; [destruct H as [H|[]]; discriminate H|contradiction].
           ++ exists resp, data. now repeat split.
        -- destruct H as [H|[]]. discriminate H.
        -- destruct H as [H|[]]. discriminate H.
    + destruct H as [H|[]]. discriminate H.
    + destruct H as [H|[]]. discriminate H.
Qed.

End Bridge_theory.

Lemma handleObserve_updates_witness :
  exists resp data,
    DecodeMessage status_frame = Ok resp
    /\ json_Unmarshal_Status resp = Ok data
    /\ In (Update "on" (B "1")) (feature_updates data).
Proof.
  apply (handleObserve_updates false true false status_frame "on" (B "1")).
  vm_compute. right. left. reflexivity.
Defined.

Lemma strip_padding_last (data : bytes) :
  data <> [] -> pad_byte (last data x00) = false -> strip_padding data = data.
Proof.
  intros Hne Hl. destruct (exists_last Hne) as (q & c & ->).
  rewrite last_last in Hl. now apply strip_padding_keep.
Qed.

Section OnSet_theory.

Context {crypto : Crypto} {laws : CryptoLaws crypto}.

(** X24.  Each call of the function that [run] registers for the feature
    "on" sends one frame and moves the counter by one, whatever the value
    given: the frame is that of the request for the power state "1" when
    the value is "1" and for "0" otherwise, under the counter before the
    call, and no other text of the caller reaches the device. *)
Theorem OnSet_spec (v : bytes) (myId : SessionID) :
  is_uint32 myId ->
  let sent := if bytes_eqb v (B "1") then B "1" else B "0" in
  exists frame,
    OnSet v myId = (uint32 (myId + 1), Ok frame)
    /\ EncodeMessage myId (power_request sent) = Ok frame
    /\ DecodeMessage frame = Ok (power_request sent).
Proof.
  intros Hid. cbv zeta. unfold OnSet.
  assert (Hv : (if negb (bytes_eqb v (B "1")) then B "0" else v)
               = if bytes_eqb v (B "1") then B "1" else B "0").
  { destruct (bytes_eqb v (B "1")) eqn:E; [|reflexivity].
    now apply bytes_eqb_eq in E. }
  rewrite Hv. set (sent := if bytes_eqb v (B "1") then B "1" else B "0").
  fold (power_request sent).
  assert (Hne : power_request sent <> []) by discriminate.
  destruct (DecodeMessage_EncodeMessage_strip myId (power_request sent) Hid Hne)
    as (frame & He & Hd).
  exists frame. rewrite He. split; [reflexivity|]. split; [reflexivity|].
  rewrite Hd. f_equal. apply strip_padding_last; [exact Hne|].
  unfold sent. now destruct (bytes_eqb v (B "1")).
Qed.

End OnSet_theory.

Lemma OnSet_spec_witness :
  exists frame,
    OnSet (B "true") 4294967295 = (0, Ok frame)
    /\ EncodeMessage 4294967295 (power_request (B "0")) = Ok frame
    /\ DecodeMessage frame = Ok (power_request (B "0")).
Proof.
  apply (OnSet_spec (laws := std_crypto_laws) (B "true") 4294967295).
  reflexivity.
Defined.

(* ================================================================= *)
(** * Decimal texts *)

Lemma ddigit_spec (d : N) :
  d < 10 ->
  u8 (strconv.ddigit d) = 48 + d /\ is_decimal_digit (strconv.ddigit d) = true.
Proof.
  intros H. assert (Hn : (N.to_nat d < 10)%nat) by lia.
  rewrite <- (N2Nat.id d). clear H. revert Hn. generalize (N.to_nat d).
  intros n Hn. do 10 (destruct n as [|n]; [now vm_compute|]). lia.
Qed.

Lemma decimal_loop_spec (fuel : nat) : forall u acc,
  u < 10 ^ N.of_nat fuel -> (1 <= fuel)%nat ->
  exists ds,
    strconv.decimal_loop fuel u acc = ds ++ acc
    /\ (1 <= List.length ds <= fuel)%nat
    /\ forallb is_decimal_digit ds = true
    /\ (hd x00 ds = x30 -> u = 0)
    /\ forall n, decval ds n = n * 10 ^ N.of_nat (List.length ds) + u.
Proof.
  induction fuel as [|fuel IH]; intros u acc Hu Hf; [lia|].
  cbn [strconv.decimal_loop]. destruct (u <? 10) eqn:E.
  - apply N.ltb_lt in E. destruct (ddigit_spec u E) as [Hv Hd].
    exists [strconv.ddigit u]. cbn [List.length].
    split; [reflexivity|]. split; [lia|]. split; [|split].
    + cbn [forallb]. now rewrite Hd.
    + cbn [hd]. intros H0. rewrite H0 in Hv. change (u8 x30) with 48 in Hv. lia.
    + intros n. unfold decval. cbn [fold_left]. rewrite Hv.
      change (10 ^ N.of_nat 1) with 10. lia.
  - apply N.ltb_ge in E.
    rewrite Nat2N.inj_succ, N.pow_succ_r' in Hu.
    assert (Hq : u / 10 < 10 ^ N.of_nat fuel).
    { apply N.Div0.div_lt_upper_bound; lia. }
    assert (Hf' : (1 <= fuel)%nat).
    { destruct fuel; [|lia]. cbn in Hu. lia. }
    destruct (IH (u / 10) (strconv.ddigit (u mod 10) :: acc) Hq Hf')
      as (ds & Heq & Hlen & Hdig & Hhd & Hval).
    assert (Hr : u mod 10 < 10) by (apply N.mod_lt; discriminate).
    destruct (ddigit_spec _ Hr) as [Hv Hd].
    exists (ds ++ [strconv.ddigit (u mod 10)]).
    rewrite <- app_assoc. cbn [app]. split; [exact Heq|].
    rewrite length_app. cbn [List.length].
    pose proof (N.div_mod u 10 ltac:(discriminate)) as Hdm.
    split; [lia|]. split; [|split].
    + rewrite forallb_app, Hdig. cbn [forallb andb]. now rewrite Hd.
    + destruct ds as [|c ds']; [cbn in Hlen; lia|].
      cbn [app hd] in *. intros H0. specialize (Hhd H0).
      assert (1 <= u / 10).
      { apply N.div_le_lower_bound; lia. }
      lia.
    + intros n. unfold decval in *. rewrite fold_left_app. cbn [fold_left].
      rewrite Hval, Hv.
      replace (List.length ds + 1)%nat with (S (List.length ds)) by lia.
      rewrite Nat2N.inj_succ, N.pow_succ_r'.
      revert Hdm. generalize (10 ^ N.of_nat (List.length ds)), (u / 10), (u mod 10).
      intros; lia.
Qed.

(** X25.  [Brightness.ToHemtjanst] gives the decimal text of the
    brightness: for a value that is not negative, digits that denote it,
    with no zero in front but for "0" itself; for a negative value, the
    text of the magnitude after a minus sign. *)
Theorem Brightness_ToHemtjanst_spec (b : Brightness) :
  (0 <= b < 2 ^ 63)%Z ->
  Brightness_ToHemtjanst b <> []
  /\ forallb is_decimal_digit (Brightness_ToHemtjanst b) = true
  /\ decval (Brightness_ToHemtjanst b) 0 = Z.to_N b
  /\ (hd x00 (Brightness_ToHemtjanst b) = x30 -> b = 0%Z)
  /\ ((0 < b)%Z ->
      Brightness_ToHemtjanst (- b)%Z = x2d :: Brightness_ToHemtjanst b).
Proof.
  intros [Hlo Hhi]. unfold Brightness_ToHemtjanst, strconv.Itoa.
  assert (Hb : (b <? 0)%Z = false) by (apply Z.ltb_ge; lia).
  rewrite Hb.
  assert (Hn : Z.to_N b < 2 ^ 63).
  { change (2 ^ 63) with (Z.to_N (2 ^ 63)). apply Z2N.inj_lt; lia. }
  rewrite N.mod_small
    by (eapply N.lt_trans; [exact Hn|reflexivity]).
  destruct (decimal_loop_spec 20 (Z.to_N b) [])
    as (ds & Heq & Hlen & Hdig & Hhd & Hval).
  { eapply N.lt_trans; [exact Hn|]. reflexivity. }
  { lia. }
  rewrite Heq, app_nil_r. split; [|split; [|split; [|split]]].
  - destruct ds; [cbn in Hlen; lia|discriminate].
  - exact Hdig.
  - rewrite Hval. lia.
  - intros H0. specialize (Hhd H0). lia.
  - intros Hpos.
    assert (Hneg : (- b <? 0)%Z = true) by (apply Z.ltb_lt; lia).
    rewrite Hneg, Z.opp_involutive.
    rewrite N.mod_small by (eapply N.lt_trans; [exact Hn|reflexivity]).
    now rewrite Heq, app_nil_r.
Qed.

Lemma Brightness_ToHemtjanst_spec_witness :
  Brightness_ToHemtjanst 75%Z <> []
  /\ forallb is_decimal_digit (Brightness_ToHemtjanst 75%Z) = true
  /\ decval (Brightness_ToHemtjanst 75%Z) 0 = 75.
Proof.
  destruct (Brightness_ToHemtjanst_spec 75%Z) as (H1 & H2 & H3 & _); [lia|].
  split; [exact H1|]. split; [exact H2|exact H3].
Defined.

(* ================================================================= *)
(** * Properties of the subcommands *)

Section Control_theory.

Context {crypto : Crypto} {json : JSON}.

Variable Desired_Brightness : Brightness -> Desired.
Variable Desired_DisplayMode : DisplayMode -> Desired.
Variable Desired_FanSpeed : FanSpeed -> Desired.
Variable Desired_Function : Function -> Desired.
Variable Desired_RelativeHumidityTarget : Z -> Desired.
Variable Desired_ChildLock : bool -> Desired.
Variable Desired_Mode : Mode -> Desired.
Variable Desired_Power : Power -> Desired.
Variable unicode_map : bytes -> bytes.
Variable NumError : bytes -> error.
Variable ParseInt_slow : bytes -> result Z.

Lemma subcommand_refused (choose : bytes -> result Desired) (host arg : bytes)
    (rest : list bytes) (w : world) (e : error) :
  choose (strings.ToLower unicode_map arg) = Err e ->
  subcommand unicode_map choose host (arg :: rest) w
  = bind (New host (dial w) (fresh w) (sync w)) (fun _ => Err e).
Proof.
  intros H. unfold subcommand.
  destruct (New host (dial w) (fresh w) (sync w)); cbn [bind]; try reflexivity.
  now rewrite H.
Qed.

Lemma not_in_eqb (dest x : bytes) (l : list bytes) :
  ~ In dest (x :: l) -> bytes_eqb dest x = false /\ ~ In dest l.
Proof.
  intros H. split.
  - destruct (bytes_eqb dest x) eqn:E; [|reflexivity].
    apply bytes_eqb_eq in E. subst. exfalso. apply H. now left.
  - intros Hin. apply H. now right.
Qed.

Ltac refuse H :=
  apply subcommand_refused;
  repeat (apply not_in_eqb in H; destruct H as [-> H]);
  reflexivity.

(** X26.  A subcommand that checks its value sends no command for a value
    that it does not know: after the handshake, which it makes first, it
    returns [flag.ErrHelp] (or the error of the handshake) and the control
    endpoint is not used. *)
Theorem unknown_value_not_sent (host arg : bytes) (rest : list bytes) (w : world) :
  let dest := strings.ToLower unicode_map arg in
  let refused := bind (New host (dial w) (fresh w) (sync w)) (fun _ => Err ErrHelp) in
  (~ In dest brightness_values ->
   brightness Desired_Brightness unicode_map host (arg :: rest) w = refused)
  /\ (~ In dest display_values ->
      display Desired_DisplayMode unicode_map host (arg :: rest) w = refused)
  /\ (~ In dest fanspeed_values ->
      fanspeed Desired_FanSpeed unicode_map host (arg :: rest) w = refused)
  /\ (~ In dest function_values ->
      function Desired_Function unicode_map host (arg :: rest) w = refused)
  /\ (~ In dest humidity_values ->
      humidity Desired_RelativeHumidityTarget unicode_map NumError ParseInt_slow
               host (arg :: rest) w = refused)
  /\ (~ In dest mode_values ->
      mode Desired_Mode unicode_map host (arg :: rest) w = refused).
Proof.
  cbv zeta. repeat split; intros H.
  - unfold brightness. refuse H.
  - unfold display. refuse H.
  - unfold fanspeed. refuse H.
  - unfold function. refuse H.
  - unfold humidity. refuse H.
  - unfold mode. refuse H.
Qed.

(** X27.  The subcommands [power] and [lock] take every value: one that
    is neither "on" nor "yes" once lowered switches the device, or the
    lock, off, exactly as the value "off" does. *)
Theorem power_lock_default_off (host arg : bytes) (rest : list bytes) (w : world) :
  let dest := strings.ToLower unicode_map arg in
  dest <> B "on" -> dest <> B "yes" ->
  power Desired_Power unicode_map host (arg :: rest) w
  = power Desired_Power unicode_map host [B "off"] w
  /\ lock Desired_ChildLock unicode_map host (arg :: rest) w
     = lock Desired_ChildLock unicode_map host [B "off"] w.
Proof.
  cbv zeta. intros H1 H2.
  assert (E1 : bytes_eqb (strings.ToLower unicode_map arg) (B "on") = false).
  { destruct (bytes_eqb _ (B "on")) eqn:E; [|reflexivity].
    now apply bytes_eqb_eq in E. }
  assert (E2 : bytes_eqb (strings.ToLower unicode_map arg) (B "yes") = false).
  { destruct (bytes_eqb _ (B "yes")) eqn:E; [|reflexivity].
    now apply bytes_eqb_eq in E. }
  unfold power, lock, subcommand. rewrite E1, E2.
  change (strings.ToLower unicode_map (B "off")) with (B "off").
  split; reflexivity.
Qed.

End Control_theory.

Lemma unknown_value_not_sent_witness :
  ~ In (strings.ToLower (fun s => s) (B "100")) brightness_values
  /\ brightness (json := example_json) (fun b => strconv.Itoa b) (fun s => s)
       (B "192.0.2.1") [B "100"] friendly_world
     = Err ErrHelp.
Proof.
  assert (H : ~ In (strings.ToLower (fun s => s) (B "100")) brightness_values).
  { vm_compute. intros [E|[E|[E|[E|[E|[]]]]]]; discriminate E. }
  split; [exact H|].
  rewrite (proj1 (unknown_value_not_sent (json := example_json)
                    (fun b => strconv.Itoa b) (fun s => s) (fun s => s) (fun s => s)
                    (fun z => strconv.Itoa z) (fun s => s) (fun s => s)
                    (fun _ => JSONError) (fun _ => Err JSONError)
                    (B "192.0.2.1") (B "100") [] friendly_world) H).
  vm_compute. reflexivity.
Defined.

Lemma power_lock_default_off_witness :
  power (json := example_json) (fun s => s) (fun s => s)
    (B "192.0.2.1") [B "On!"] friendly_world
  = power (json := example_json) (fun s => s) (fun s => s)
      (B "192.0.2.1") [B "off"] friendly_world.
Proof.
  assert (H1 : strings.ToLower (fun s => s) (B "On!") <> B "on")
    by (vm_compute; discriminate).
  assert (H2 : strings.ToLower (fun s => s) (B "On!") <> B "yes")
    by (vm_compute; discriminate).
  exact (proj1 (power_lock_default_off (json := example_json)
                  (fun _ => []) (fun s => s) (fun s => s) (B "192.0.2.1")
                  (B "On!") [] friendly_world H1 H2)).
Defined.
